(** * StreamFlow player: a shallow embedding of [App.tsx] and [HlsPlayer]

  The repository is a React page shell ([App.tsx]) around one player
  component ([HlsPlayer]) that drives an [hls.js] client and the native
  [<video>] element.  The component is modelled as a reducer: every
  handler of the source is a function on an explicit [Player] record that
  holds the React state cells, the two refs and the collaborators the refs
  point to, together with the ordered log of the calls made on them. *)

From Stdlib Require Import List ZArith NArith Bool String Ascii Lia.
From Stdlib Require Import Floats DecimalString.
From Stdlib Require Import Sorting.Sorted Sorting.Permutation.
Import ListNotations.

Set Implicit Arguments.

(* ================================================================== *)
(** ** JavaScript strings *)
(* ================================================================== *)

(** A JavaScript string is a sequence of UTF-16 code units.  Only the
  three methods the source calls are modelled: [trim], [toLowerCase] and
  [includes]. *)
Module JsString.

Definition t := list N.

(** An ASCII literal of the source, as code units. *)
Definition lit (s : string) : t := map N_of_ascii (list_ascii_of_string s).

(** ECMAScript [WhiteSpace] and [LineTerminator] code points, the set
    [String.prototype.trim] strips.  All of them are in the BMP, so the
    test is exact on code units. *)
Definition isWhiteSpace (c : N) : bool :=
  ((9 <=? c) && (c <=? 13)            (* TAB LF VT FF CR *)
   || (c =? 32) || (c =? 160)         (* SP, NBSP *)
   || (c =? 5760)                     (* U+1680 *)
   || ((8192 <=? c) && (c <=? 8202))  (* U+2000 .. U+200A *)
   || (c =? 8232) || (c =? 8233)      (* LS, PS *)
   || (c =? 8239) || (c =? 8287)      (* U+202F, U+205F *)
   || (c =? 12288) || (c =? 65279))%N (* U+3000, U+FEFF *).

Fixpoint dropWhile (p : N -> bool) (s : t) : t :=
  match s with
  | [] => []
  | c :: s' => if p c then dropWhile p s' else s
  end.

Definition trimStart (s : t) : t := dropWhile isWhiteSpace s.
Definition trimEnd (s : t) : t := rev (dropWhile isWhiteSpace (rev s)).
Definition trim (s : t) : t := trimEnd (trimStart s).

(** Truthiness of a string in a condition: the empty string is falsy. *)
Definition truthy (s : t) : bool :=
  match s with [] => false | _ :: _ => true end.

(** [toLowerCase], one code unit at a time.  The ASCII capitals map to
    their small letters; U+0130 and U+212A are the two code points outside
    ASCII whose lower-case form holds an ASCII letter.  Every other code
    unit outside ASCII lower-cases to code units outside ASCII and is kept
    as it is: such a unit can never be part of an occurrence of an ASCII
    needle, which is all the source asks of the result. *)
Definition lowerUnit (c : N) : t :=
  (if (65 <=? c) && (c <=? 90) then [c + 32]
   else if c =? 304 then [105; 775]
   else if c =? 8490 then [107]
   else [c])%N.

Definition toLowerCase (s : t) : t := flat_map lowerUnit s.

Fixpoint startsWith (s needle : t) : bool :=
  match needle, s with
  | [], _ => true
  | _ :: _, [] => false
  | n :: needle', c :: s' => (c =? n)%N && startsWith s' needle'
  end.

Fixpoint includes (s needle : t) : bool :=
  startsWith s needle
  || match s with
     | [] => false
     | _ :: s' => includes s' needle
     end.

End JsString.

(* ================================================================== *)
(** ** The page shell ([App.tsx]) *)
(* ================================================================== *)

Module Shell.
Import JsString.

Definition DEFAULT_STREAM : JsString.t :=
  lit "https://af.ayassport.ir/hls2/bein1.m3u8".

(** The two [useState] cells of [App]. *)
Record State := mkState {
  streamUrl : JsString.t;
  urlInput : JsString.t
}.

Definition init : State :=
  {| streamUrl := DEFAULT_STREAM; urlInput := DEFAULT_STREAM |}.

(** [onChange] of the address field: [setUrlInput(e.target.value)]. *)
Definition setUrlInput (v : JsString.t) (st : State) : State :=
  {| streamUrl := streamUrl st; urlInput := v |}.

(** [handleUrlSubmit]. *)
Definition handleUrlSubmit (st : State) : State :=
  if truthy (trim (urlInput st))
  then {| streamUrl := trim (urlInput st); urlInput := urlInput st |}
  else st.

(** The [src] prop of [<HlsPlayer src={streamUrl} />]. *)
Definition playerSrc (st : State) : JsString.t := streamUrl st.

End Shell.

(* ================================================================== *)
(** ** Collaborator: the hls.js client *)
(* ================================================================== *)

(** What [HlsPlayer] uses of hls.js: the constructor options, the two
    events it subscribes to with their payloads, and the instance as the
    mutable object the component holds in [hlsRef].  A level's [height] and
    [bitrate] are the integers hls.js reads from the manifest. *)
Module Hls.

Inductive ErrorTypes :=
| NETWORK_ERROR | MEDIA_ERROR | KEY_SYSTEM_ERROR | MUX_ERROR | OTHER_ERROR.

Record ErrorData := mkErrorData {
  fatal : bool;
  type : ErrorTypes
}.

Record LevelDetails := mkLevelDetails { live : bool }.

Record Level := mkLevel {
  height : Z;
  bitrate : Z;
  details : option LevelDetails
}.

Record ManifestParsedData := mkManifestParsedData { levels : list Level }.

Inductive Events :=
| MANIFEST_PARSED (data : ManifestParsedData)
| ERROR (data : ErrorData).

Inductive EventName := ON_MANIFEST_PARSED | ON_ERROR.

Definition nameOf (e : Events) : EventName :=
  match e with
  | MANIFEST_PARSED _ => ON_MANIFEST_PARSED
  | ERROR _ => ON_ERROR
  end.

Definition EventName_eqb (a b : EventName) : bool :=
  match a, b with
  | ON_MANIFEST_PARSED, ON_MANIFEST_PARSED => true
  | ON_ERROR, ON_ERROR => true
  | _, _ => false
  end.

Record Config := mkConfig {
  enableWorker : bool;
  lowLatencyMode : bool;
  startLevel : Z
}.

(** One client object.  [id] is its identity ([new Hls] makes a fresh
    one); the other fields are what the calls of the component change. *)
Record Instance := mkInstance {
  id : nat;
  config : Config;
  url : option JsString.t;      (* set by [loadSource] *)
  media : bool;                 (* set by [attachMedia] *)
  subscribed : list EventName;  (* set by [on] *)
  currentLevel : Z;             (* the [currentLevel] setter *)
  destroyed : bool              (* set by [destroy] *)
}.

Definition create (i : nat) (c : Config) : Instance :=
  mkInstance i c None false [] (startLevel c) false.

Definition loadSource (s : JsString.t) (h : Instance) : Instance :=
  mkInstance (id h) (config h) (Some s) (media h) (subscribed h)
             (currentLevel h) (destroyed h).

Definition attachMedia (h : Instance) : Instance :=
  mkInstance (id h) (config h) (url h) true (subscribed h)
             (currentLevel h) (destroyed h).

Definition on (e : EventName) (h : Instance) : Instance :=
  mkInstance (id h) (config h) (url h) (media h) (subscribed h ++ [e])
             (currentLevel h) (destroyed h).

Definition setCurrentLevel (l : Z) (h : Instance) : Instance :=
  mkInstance (id h) (config h) (url h) (media h) (subscribed h)
             l (destroyed h).

(** [destroy] detaches the media and removes every listener. *)
Definition destroy (h : Instance) : Instance :=
  mkInstance (id h) (config h) (url h) false [] (currentLevel h) true.

(** An instance delivers an event to the component only while it is alive
    and the component subscribed to that event. *)
Definition delivers (h : Instance) (e : Events) : bool :=
  negb (destroyed h) && existsb (EventName_eqb (nameOf e)) (subscribed h).

End Hls.

(* ================================================================== *)
(** ** Collaborator: the native media element *)
(* ================================================================== *)

Module Video.

(** The result of [canPlayType]: the empty string, ["maybe"] or
    ["probably"]; only the empty string is falsy. *)
Inductive CanPlayTypeResult := cannot | maybe | probably.

Definition truthy (r : CanPlayTypeResult) : bool :=
  match r with cannot => false | _ => true end.

(** The listeners [loadVideo] adds by hand, named by the event they are
    added for.  They are never removed, so they pile up on the element
    across sessions. *)
Inductive Listener := on_loadedmetadata | on_loadeddata | on_error.

(** The element, as far as the component writes or reads it.  [error] says
    whether the element's [error] attribute holds a [MediaError]. *)
Record Element := mkElement {
  src : JsString.t;
  volume : float;
  muted : bool;
  currentTime : float;
  duration : float;
  error : bool;
  listeners : list Listener
}.

Definition setSrc (s : JsString.t) (v : Element) : Element :=
  mkElement s (volume v) (muted v) (currentTime v) (duration v) (error v)
            (listeners v).

(** The [volume] setter.  The component only ever assigns the value of
    its range control, which lies in [0, 1], where the setter accepts it. *)
Definition setVolume (x : float) (v : Element) : Element :=
  mkElement (src v) x (muted v) (currentTime v) (duration v) (error v)
            (listeners v).

Definition setMuted (b : bool) (v : Element) : Element :=
  mkElement (src v) (volume v) b (currentTime v) (duration v) (error v)
            (listeners v).

Definition setCurrentTime (x : float) (v : Element) : Element :=
  mkElement (src v) (volume v) (muted v) x (duration v) (error v)
            (listeners v).

Definition addEventListener (l : Listener) (v : Element) : Element :=
  mkElement (src v) (volume v) (muted v) (currentTime v) (duration v)
            (error v) (listeners v ++ [l]).

(** What the browser reports with an event, written into the element
    before the listeners run. *)
Definition report (t d : float) (v : Element) : Element :=
  mkElement (src v) (volume v) (muted v) t d (error v) (listeners v).

Definition reportError (e : bool) (v : Element) : Element :=
  mkElement (src v) (volume v) (muted v) (currentTime v) (duration v) e
            (listeners v).

(** A freshly created element. *)
Definition fresh : Element :=
  mkElement [] 1%float false 0%float nan false [].

End Video.

(** The two feature tests of the page's environment. *)
Record Platform := mkPlatform {
  isSupported : bool;                                   (* [Hls.isSupported()] *)
  canPlayType : JsString.t -> Video.CanPlayTypeResult   (* [video.canPlayType] *)
}.

(* ================================================================== *)
(** ** JavaScript arrays *)
(* ================================================================== *)

(** The two array methods the component uses with a callback.  [map]
    passes the element and its position.  [sort] is stable and orders by
    the sign of the comparator, so for a consistent comparator its result
    does not depend on the engine's algorithm; it is written here as a
    stable insertion sort. *)
Module JsArray.

Fixpoint mapFrom (A B : Type) (f : A -> nat -> B) (i : nat) (l : list A) : list B :=
  match l with
  | [] => []
  | x :: l' => f x i :: mapFrom f (S i) l'
  end.

Definition map (A B : Type) (f : A -> nat -> B) (l : list A) : list B :=
  mapFrom f 0 l.

Fixpoint insert (A : Type) (compare : A -> A -> Z) (x : A) (l : list A) : list A :=
  match l with
  | [] => [x]
  | y :: l' =>
      if (compare x y <=? 0)%Z then x :: l else y :: insert compare x l'
  end.

Definition sort (A : Type) (compare : A -> A -> Z) (l : list A) : list A :=
  fold_right (insert compare) [] l.

End JsArray.

(* ================================================================== *)
(** ** The player component ([HlsPlayer]) *)
(* ================================================================== *)

Module Player.
Import JsString.

(** [interface QualityLevel]. *)
Record QualityLevel := mkQualityLevel {
  height : Z;
  bitrate : Z;
  index : Z;
  name : JsString.t;
  label : JsString.t
}.

(** The calls the component makes on its collaborators, in the order it
    makes them. *)
Inductive Call :=
| HlsNew (i : nat) (c : Hls.Config)
| HlsLoadSource (i : nat) (s : JsString.t)
| HlsAttachMedia (i : nat)
| HlsOn (i : nat) (e : Hls.EventName)
| HlsStartLoad (i : nat)
| HlsRecoverMediaError (i : nat)
| HlsDestroy (i : nat)
| HlsSetCurrentLevel (i : nat) (l : Z)
| VideoSetSrc (s : JsString.t)
| VideoLoad
| VideoPlay
| VideoPause
| VideoSetVolume (x : float)
| VideoSetMuted (b : bool)
| VideoSetCurrentTime (x : float)
| VideoAddEventListener (l : Video.Listener).

(** The component: its [useState] cells (those of the fullscreen toggle
    and of the auto-hiding controls are left out, no handler below reads
    them), the objects behind [videoRef] and [hlsRef], the identity the
    next [new Hls] gets, and the log of calls. *)
Record t := mkPlayer {
  isPlaying : bool;
  isMuted : bool;
  volume : float;
  isBuffering : bool;
  error : option JsString.t;
  duration : float;
  currentTime : float;
  isLive : bool;
  qualities : list QualityLevel;
  currentQualityIndex : Z;
  showSettings : bool;
  videoRef : option Video.Element;
  hlsRef : option Hls.Instance;
  nextHls : nat;
  calls : list Call
}.

(** The state setters. *)
Definition setIsPlaying (x : bool) (p : t) : t :=
  mkPlayer x (isMuted p) (volume p) (isBuffering p) (error p) (duration p)
    (currentTime p) (isLive p) (qualities p) (currentQualityIndex p)
    (showSettings p) (videoRef p) (hlsRef p) (nextHls p) (calls p).

Definition setIsMuted (x : bool) (p : t) : t :=
  mkPlayer (isPlaying p) x (volume p) (isBuffering p) (error p) (duration p)
    (currentTime p) (isLive p) (qualities p) (currentQualityIndex p)
    (showSettings p) (videoRef p) (hlsRef p) (nextHls p) (calls p).

Definition setVolume (x : float) (p : t) : t :=
  mkPlayer (isPlaying p) (isMuted p) x (isBuffering p) (error p) (duration p)
    (currentTime p) (isLive p) (qualities p) (currentQualityIndex p)
    (showSettings p) (videoRef p) (hlsRef p) (nextHls p) (calls p).

Definition setIsBuffering (x : bool) (p : t) : t :=
  mkPlayer (isPlaying p) (isMuted p) (volume p) x (error p) (duration p)
    (currentTime p) (isLive p) (qualities p) (currentQualityIndex p)
    (showSettings p) (videoRef p) (hlsRef p) (nextHls p) (calls p).

Definition setError (x : option JsString.t) (p : t) : t :=
  mkPlayer (isPlaying p) (isMuted p) (volume p) (isBuffering p) x (duration p)
    (currentTime p) (isLive p) (qualities p) (currentQualityIndex p)
    (showSettings p) (videoRef p) (hlsRef p) (nextHls p) (calls p).

Definition setDuration (x : float) (p : t) : t :=
  mkPlayer (isPlaying p) (isMuted p) (volume p) (isBuffering p) (error p) x
    (currentTime p) (isLive p) (qualities p) (currentQualityIndex p)
    (showSettings p) (videoRef p) (hlsRef p) (nextHls p) (calls p).

Definition setCurrentTime (x : float) (p : t) : t :=
  mkPlayer (isPlaying p) (isMuted p) (volume p) (isBuffering p) (error p)
    (duration p) x (isLive p) (qualities p) (currentQualityIndex p)
    (showSettings p) (videoRef p) (hlsRef p) (nextHls p) (calls p).

Definition setIsLive (x : bool) (p : t) : t :=
  mkPlayer (isPlaying p) (isMuted p) (volume p) (isBuffering p) (error p)
    (duration p) (currentTime p) x (qualities p) (currentQualityIndex p)
    (showSettings p) (videoRef p) (hlsRef p) (nextHls p) (calls p).

Definition setQualities (x : list QualityLevel) (p : t) : t :=
  mkPlayer (isPlaying p) (isMuted p) (volume p) (isBuffering p) (error p)
    (duration p) (currentTime p) (isLive p) x (currentQualityIndex p)
    (showSettings p) (videoRef p) (hlsRef p) (nextHls p) (calls p).

Definition setCurrentQualityIndex (x : Z) (p : t) : t :=
  mkPlayer (isPlaying p) (isMuted p) (volume p) (isBuffering p) (error p)
    (duration p) (currentTime p) (isLive p) (qualities p) x
    (showSettings p) (videoRef p) (hlsRef p) (nextHls p) (calls p).

Definition setShowSettings (x : bool) (p : t) : t :=
  mkPlayer (isPlaying p) (isMuted p) (volume p) (isBuffering p) (error p)
    (duration p) (currentTime p) (isLive p) (qualities p)
    (currentQualityIndex p) x (videoRef p) (hlsRef p) (nextHls p) (calls p).

(** Writes to the refs and to the log. *)
Definition setVideoRef (x : option Video.Element) (p : t) : t :=
  mkPlayer (isPlaying p) (isMuted p) (volume p) (isBuffering p) (error p)
    (duration p) (currentTime p) (isLive p) (qualities p)
    (currentQualityIndex p) (showSettings p) x (hlsRef p) (nextHls p)
    (calls p).

Definition setHlsRef (x : option Hls.Instance) (p : t) : t :=
  mkPlayer (isPlaying p) (isMuted p) (volume p) (isBuffering p) (error p)
    (duration p) (currentTime p) (isLive p) (qualities p)
    (currentQualityIndex p) (showSettings p) (videoRef p) x (nextHls p)
    (calls p).

Definition setNextHls (x : nat) (p : t) : t :=
  mkPlayer (isPlaying p) (isMuted p) (volume p) (isBuffering p) (error p)
    (duration p) (currentTime p) (isLive p) (qualities p)
    (currentQualityIndex p) (showSettings p) (videoRef p) (hlsRef p) x
    (calls p).

Definition log (c : Call) (p : t) : t :=
  mkPlayer (isPlaying p) (isMuted p) (volume p) (isBuffering p) (error p)
    (duration p) (currentTime p) (isLive p) (qualities p)
    (currentQualityIndex p) (showSettings p) (videoRef p) (hlsRef p)
    (nextHls p) (calls p ++ [c]).

(** A call on the media element: it is logged, and [f] is what it does to
    the element behind [videoRef]. *)
Definition onVideo (c : Call) (f : Video.Element -> Video.Element) (p : t) : t :=
  match videoRef p with
  | Some v => setVideoRef (Some (f v)) (log c p)
  | None => p
  end.

(** A call on the client behind [hlsRef].  The [hls] constant the handlers
    of [loadVideo] close over is that same object for as long as it can
    deliver an event, so its calls go through here too. *)
Definition onHls (c : nat -> Call) (f : Hls.Instance -> Hls.Instance) (p : t) : t :=
  match hlsRef p with
  | Some h => setHlsRef (Some (f h)) (log (c (Hls.id h)) p)
  | None => p
  end.

(** Statements of a handler, in program order. *)
Definition seq (f g : t -> t) : t -> t := fun p => g (f p).
Notation "f ;; g" := (seq f g) (at level 61, right associativity).

Definition skip : t -> t := fun p => p.

(** The component as first rendered, around the element [v]. *)
Definition initial (v : Video.Element) : t :=
  mkPlayer false false 1%float true None 0%float 0%float false [] (-1) false
           (Some v) None 0 [].

(** *** Labels *)

(** The fixed texts of the source, in UTF-16 code units. *)

(* "خطأ في الاتصال بالبث" *)
Definition STREAM_ERROR : JsString.t :=
  [1582; 1591; 1571; 32; 1601; 1610; 32; 1575; 1604; 1575; 1578; 1589; 1575;
   1604; 32; 1576; 1575; 1604; 1576; 1579]%N.

(* "تعذر تشغيل الملف. تأكد من الصيغة والرابط." *)
Definition FILE_ERROR : JsString.t :=
  [1578; 1593; 1584; 1585; 32; 1578; 1588; 1594; 1610; 1604; 32; 1575; 1604;
   1605; 1604; 1601; 46; 32; 1578; 1571; 1603; 1583; 32; 1605; 1606; 32; 1575;
   1604; 1589; 1610; 1594; 1577; 32; 1608; 1575; 1604; 1585; 1575; 1576; 1591;
   46]%N.

(* "تلقائي" *)
Definition AUTO_LABEL : JsString.t := [1578; 1604; 1602; 1575; 1574; 1610]%N.

Definition MPEGURL : JsString.t := lit "application/vnd.apple.mpegurl".

(** [getResolutionLabel]. *)
Definition getResolutionLabel (height : Z) : JsString.t :=
  if (height >=? 2160)%Z then lit "4K"
  else if (height >=? 1440)%Z then lit "2K"
  else if (height >=? 1080)%Z then lit "FHD"
  else if (height >=? 720)%Z then lit "HD"
  else lit "SD".

(** An integer in a template literal. *)
Definition decimal (z : Z) : JsString.t := lit (NilZero.string_of_int (Z.to_int z)).

(** *** Setup: the [useEffect] on [src] *)

Definition isHlsSource (src : JsString.t) : bool :=
  includes (toLowerCase src) (lit ".m3u8")
  || includes (toLowerCase src) MPEGURL.

Definition HLS_CONFIG : Hls.Config :=
  {| Hls.enableWorker := true; Hls.lowLatencyMode := true; Hls.startLevel := -1 |}.

(** [const hls = new Hls(...); hlsRef.current = hls]. *)
Definition newHls : t -> t := fun p =>
  setNextHls (S (nextHls p))
    (setHlsRef (Some (Hls.create (nextHls p) HLS_CONFIG))
       (log (HlsNew (nextHls p) HLS_CONFIG) p)).

Definition addListener (l : Video.Listener) : t -> t :=
  onVideo (VideoAddEventListener l) (Video.addEventListener l).

Section Setup.
Variable P : Platform.

Definition loadVideo (src : JsString.t) : t -> t :=
  if isHlsSource src && isSupported P then
    (* 1. Try HLS.js *)
    newHls ;;
    onHls (fun i => HlsLoadSource i src) (Hls.loadSource src) ;;
    onHls HlsAttachMedia Hls.attachMedia ;;
    onHls (fun i => HlsOn i Hls.ON_MANIFEST_PARSED) (Hls.on Hls.ON_MANIFEST_PARSED) ;;
    onHls (fun i => HlsOn i Hls.ON_ERROR) (Hls.on Hls.ON_ERROR)
  else if isHlsSource src && Video.truthy (canPlayType P MPEGURL) then
    (* 2. Try Native HLS (Safari) *)
    onVideo (VideoSetSrc src) (Video.setSrc src) ;;
    addListener Video.on_loadedmetadata
  else
    (* 3. Fallback to Direct File Playback *)
    onVideo (VideoSetSrc src) (Video.setSrc src) ;;
    onVideo VideoLoad (fun v => v) ;;
    setQualities [] ;;
    addListener Video.on_loadeddata ;;
    addListener Video.on_error.

(** The body of the effect. *)
Definition setup (src : JsString.t) : t -> t := fun p =>
  match videoRef p with
  | None => p
  | Some _ =>
      (setIsBuffering true ;;
       setError None ;;
       setQualities [] ;;
       setCurrentQualityIndex (-1) ;;
       setIsLive false ;;
       (* Cleanup previous HLS instance *)
       (fun p => match hlsRef p with
                 | Some _ => (onHls HlsDestroy Hls.destroy ;; setHlsRef None) p
                 | None => p
                 end) ;;
       loadVideo src) p
  end.

(** The function the effect returns. *)
Definition cleanup : t -> t := fun p =>
  match hlsRef p with
  | Some _ => onHls HlsDestroy Hls.destroy p
  | None => p
  end.

(** A new [src] prop: React runs the cleanup of the effect of the previous
    [src], then the effect again. *)
Definition changeSrc (src : JsString.t) : t -> t := cleanup ;; setup src.

(** The first render around the element [v]. *)
Definition mount (src : JsString.t) (v : Video.Element) : t :=
  setup src (initial v).

End Setup.

(** *** The handlers [loadVideo] registers *)

Definition toQualityLevel (level : Hls.Level) (index : nat) : QualityLevel :=
  {| height := Hls.height level;
     bitrate := Hls.bitrate level;
     index := Z.of_nat index;
     name := if (Hls.height level =? 0)%Z
             then lit "L" ++ decimal (Z.of_nat index)
             else decimal (Hls.height level) ++ lit "p";
     label := getResolutionLabel (Hls.height level) |}.

(** The comparator of [levels.sort]. *)
Definition byHeightDesc (a b : QualityLevel) : Z := (height b - height a)%Z.

(** [level.details?.live], as a condition. *)
Definition reportsLive (level : Hls.Level) : bool :=
  match Hls.details level with
  | Some d => Hls.live d
  | None => false
  end.

(** [video.play()]: the call is logged; a rejection of the promise it
    returns comes back later, to the [catch] of the place that called. *)
Definition play : t -> t := onVideo VideoPlay (fun v => v).

Inductive PlaySite := inManifestParsed | inLoadedMetadata | inLoadedData.

Definition onManifestParsed (data : Hls.ManifestParsedData) : t -> t :=
  setIsBuffering false ;;
  setIsLive (existsb reportsLive (Hls.levels data)) ;;
  setQualities
    (JsArray.sort byHeightDesc (JsArray.map toQualityLevel (Hls.levels data))) ;;
  play.

Definition onHlsError (data : Hls.ErrorData) : t -> t :=
  if Hls.fatal data then
    match Hls.type data with
    | Hls.NETWORK_ERROR => onHls HlsStartLoad (fun h => h)
    | Hls.MEDIA_ERROR => onHls HlsRecoverMediaError (fun h => h)
    | _ => onHls HlsDestroy Hls.destroy ;; setError (Some STREAM_ERROR)
    end
  else skip.

(** The three [catch] callbacks. *)
Definition onPlayRejected (s : PlaySite) : t -> t :=
  match s with
  | inManifestParsed => setIsPlaying false ;; setIsMuted true
  | inLoadedMetadata => setIsMuted true
  | inLoadedData => setIsMuted true
  end.

(** An event of the client held in [hlsRef] reaches its handler. *)
Definition hlsEmit (e : Hls.Events) : t -> t := fun p =>
  match hlsRef p with
  | Some h =>
      if Hls.delivers h e then
        match e with
        | Hls.MANIFEST_PARSED data => onManifestParsed data p
        | Hls.ERROR data => onHlsError data p
        end
      else p
  | None => p
  end.

(** *** Media element events *)

Inductive VideoEvent :=
| ev_play | ev_pause | ev_waiting | ev_playing
| ev_timeupdate (time dur : float)
| ev_loadedmetadata | ev_loadeddata
| ev_error (err : bool).

(** The listeners of the second effect. *)
Definition onPlay : t -> t := setIsPlaying true.
Definition onPause : t -> t := setIsPlaying false.
Definition onWaiting : t -> t := setIsBuffering true.
Definition onPlaying : t -> t := setIsBuffering false.

Definition onTimeUpdate : t -> t := fun p =>
  match videoRef p with
  | Some video =>
      (setCurrentTime (Video.currentTime video) ;;
       setDuration (Video.duration video) ;;
       (if (Video.duration video =? infinity)%float then setIsLive true else skip)) p
  | None => p
  end.

(** The listeners [loadVideo] added. *)
Definition onLoadedMetadata : t -> t := setIsBuffering false ;; play.
Definition onLoadedData : t -> t := setIsBuffering false ;; play.

Definition onVideoError : t -> t := fun p =>
  match videoRef p with
  | Some video => if Video.error video then setError (Some FILE_ERROR) p else p
  | None => p
  end.

Definition runListener (e : VideoEvent) (l : Video.Listener) : t -> t :=
  match e, l with
  | ev_loadedmetadata, Video.on_loadedmetadata => onLoadedMetadata
  | ev_loadeddata, Video.on_loadeddata => onLoadedData
  | ev_error _, Video.on_error => onVideoError
  | _, _ => skip
  end.

Definition mirror (e : VideoEvent) : t -> t :=
  match e with
  | ev_play => onPlay
  | ev_pause => onPause
  | ev_waiting => onWaiting
  | ev_playing => onPlaying
  | ev_timeupdate _ _ => onTimeUpdate
  | _ => skip
  end.

(** What the element shows of itself when it fires the event. *)
Definition reading (e : VideoEvent) (v : Video.Element) : Video.Element :=
  match e with
  | ev_timeupdate time dur => Video.report time dur v
  | ev_error err => Video.reportError err v
  | _ => v
  end.

(** The element fires [e]: every listener registered for it runs. *)
Definition videoEmit (e : VideoEvent) : t -> t := fun p =>
  match videoRef p with
  | Some v =>
      fold_left (fun q l => runListener e l q) (Video.listeners v)
        (mirror e (setVideoRef (Some (reading e v)) p))
  | None => p
  end.

(** *** Transport operations *)

Definition togglePlay : t -> t := fun p =>
  match videoRef p with
  | Some _ => if isPlaying p then onVideo VideoPause (fun v => v) p else play p
  | None => p
  end.

Definition toggleMute : t -> t := fun p =>
  match videoRef p with
  | Some _ =>
      (onVideo (VideoSetMuted (negb (isMuted p))) (Video.setMuted (negb (isMuted p))) ;;
       setIsMuted (negb (isMuted p))) p
  | None => p
  end.

(** [handleVolumeChange], on [val = parseFloat(e.target.value)]. *)
Definition handleVolumeChange (val : float) : t -> t :=
  setVolume val ;;
  (fun p => match videoRef p with
            | Some _ =>
                (onVideo (VideoSetVolume val) (Video.setVolume val) ;;
                 onVideo (VideoSetMuted (val =? 0)%float) (Video.setMuted (val =? 0)%float) ;;
                 setIsMuted (val =? 0)%float) p
            | None => p
            end).

Definition changeQuality (index : Z) : t -> t :=
  setCurrentQualityIndex index ;;
  onHls (fun i => HlsSetCurrentLevel i index) (Hls.setCurrentLevel index) ;;
  setShowSettings false.

(** [onChange] of the progress control, on [Number(e.target.value)]. *)
Definition seekTo (x : float) : t -> t :=
  onVideo (VideoSetCurrentTime x) (Video.setCurrentTime x) ;;
  setCurrentTime x.

Definition toggleSettings : t -> t := fun p =>
  setShowSettings (negb (showSettings p)) p.

Definition closeSettings : t -> t := setShowSettings false.

(** *** Rendering *)

(** What a click in the rendered tree calls. *)
Inductive Action :=
| ReloadPage
| TogglePlay
| ToggleMute
| ToggleSettings
| ChangeQuality (index : Z).

Record ErrorOverlay := mkErrorOverlay {
  message : JsString.t;
  buttons : list Action
}.

Record MenuEntry := mkMenuEntry {
  entryName : JsString.t;
  entryLabel : option JsString.t;
  highlighted : bool;
  onClick : Action
}.

Record QualityButton := mkQualityButton {
  caption : JsString.t;
  settingsClick : Action;
  menu : option (list MenuEntry)
}.

Record Scrubber := mkScrubber {
  max : float;
  value : float
}.

(** The parts of the returned tree that are rendered under a condition. *)
Record View := mkView {
  loadingOverlay : bool;
  errorOverlay : option ErrorOverlay;
  progress : option Scrubber;
  liveBadge : bool;
  timeText : bool;
  qualityButton : option QualityButton;
  standardBadge : bool
}.

(** [error], as a condition: [null] and the empty string are falsy. *)
Definition errorShown (p : t) : bool :=
  match error p with
  | Some s => truthy s
  | None => false
  end.

(** [duration || 100]. *)
Definition orElse (x y : float) : float :=
  if (x =? 0)%float || PrimFloat.is_nan x then y else x.

Definition currentQualityLabel (p : t) : JsString.t :=
  if (currentQualityIndex p =? -1)%Z then AUTO_LABEL
  else match find (fun x => (index x =? currentQualityIndex p)%Z) (qualities p) with
       | Some q => name q
       | None => lit "HD"
       end.

Definition menuEntries (p : t) : list MenuEntry :=
  mkMenuEntry AUTO_LABEL None (currentQualityIndex p =? -1)%Z (ChangeQuality (-1))
  :: List.map (fun q => mkMenuEntry (name q) (Some (label q))
                          (currentQualityIndex p =? index q)%Z
                          (ChangeQuality (index q)))
       (qualities p).

Definition render (p : t) : View :=
  {| loadingOverlay := isBuffering p && negb (errorShown p);
     errorOverlay :=
       match error p with
       | Some s => if truthy s then Some (mkErrorOverlay s [ReloadPage]) else None
       | None => None
       end;
     progress :=
       if negb (isLive p)
       then Some (mkScrubber (orElse (duration p) 100%float) (currentTime p))
       else None;
     liveBadge := isLive p;
     timeText := negb (isLive p);
     qualityButton :=
       if (0 <? List.length (qualities p))%nat
       then Some (mkQualityButton (currentQualityLabel p) ToggleSettings
                    (if showSettings p then Some (menuEntries p) else None))
       else None;
     standardBadge := (List.length (qualities p) =? 0)%nat && negb (isLive p) |}.

(** The [useState] cells, side by side. *)
Definition cells (p : t) :=
  (isPlaying p, isMuted p, volume p, isBuffering p, error p, duration p,
   currentTime p, isLive p, qualities p, currentQualityIndex p, showSettings p).

(** *** The component as a transition system *)

Inductive Event :=
| SrcChanged (src : JsString.t)
| FromHls (e : Hls.Events)
| FromVideo (e : VideoEvent)
| PlayRejected (s : PlaySite)
| Clicked (a : Action)
| VolumeInput (val : float)
| SeekInput (x : float)
| ClickedOutside.

Section Run.
Variable P : Platform.

(** A click; a reload of the page takes the component away, so nothing of
    it is left to change. *)
Definition perform (a : Action) : t -> t :=
  match a with
  | ReloadPage => skip
  | TogglePlay => togglePlay
  | ToggleMute => toggleMute
  | ToggleSettings => toggleSettings
  | ChangeQuality index => changeQuality index
  end.

Definition step (e : Event) : t -> t :=
  match e with
  | SrcChanged src => changeSrc P src
  | FromHls e => hlsEmit e
  | FromVideo e => videoEmit e
  | PlayRejected s => onPlayRejected s
  | Clicked a => perform a
  | VolumeInput val => handleVolumeChange val
  | SeekInput x => seekTo x
  | ClickedOutside => closeSettings
  end.

Definition run (es : list Event) (p : t) : t :=
  fold_left (fun q e => step e q) es p.

(** The states the mounted component can be in. *)
Inductive Reachable : t -> Prop :=
| reach_mount (src : JsString.t) (v : Video.Element) :
    Reachable (mount P src v)
| reach_step (e : Event) (p : t) :
    Reachable p -> Reachable (step e p).

End Run.

End Player.

(* ================================================================== *)
(** ** The specification's own notions *)
(* ================================================================== *)

(** The strategy list of the specification's player section, read
    as it is written: three strategies, the first matching one wins.  It is
    compared with [Player.loadVideo] below. *)
Module Spec.

Inductive Strategy := AdaptiveClient | NativeAdaptive | DirectFile.

Definition strategyByPriority
  (looksLikeManifest engineSupported playsNatively : bool) : Strategy :=
  if looksLikeManifest && engineSupported then AdaptiveClient
  else if looksLikeManifest && playsNatively then NativeAdaptive
  else DirectFile.

(** Descending vertical resolution. *)
Definition taller (a b : Player.QualityLevel) : Prop :=
  (Player.height b <= Player.height a)%Z.

(** A string made of white space only (the empty one included). *)
Definition blank (s : JsString.t) : Prop :=
  forallb JsString.isWhiteSpace s = true.

(** What ties the quality list and the error message to the client: the
    element is mounted; without a client in [hlsRef] there are no quality
    levels; a destroyed client is only ever held under an error message;
    and the held client was made before the next one will be. *)
Definition consistent (p : Player.t) : Prop :=
  (exists v, Player.videoRef p = Some v)
  /\ (Player.hlsRef p = None -> Player.qualities p = [])
  /\ (forall h, Player.hlsRef p = Some h -> Hls.destroyed h = true ->
                Player.errorShown p = true)
  /\ (forall h, Player.hlsRef p = Some h -> Hls.id h < Player.nextHls p).

(** A session on hls.js that has not lost its client: the client in
    [hlsRef] is alive and subscribed as [loadVideo] left it, and the
    selection is automatic. *)
Definition awaitingManifest (p : Player.t) : Prop :=
  (exists h, Player.hlsRef p = Some h
             /\ Hls.destroyed h = false
             /\ Hls.subscribed h = [Hls.ON_MANIFEST_PARSED; Hls.ON_ERROR])
  /\ Player.currentQualityIndex p = (-1)%Z.

(** What can happen in such a session before its manifest is parsed:
    anything but a new address, a parsed manifest, an error that ends the
    client, or a click in the quality menu, which is not rendered while the
    quality list is empty. *)
Definition quiet (e : Player.Event) : Prop :=
  match e with
  | Player.SrcChanged _ => False
  | Player.FromHls (Hls.MANIFEST_PARSED _) => False
  | Player.FromHls (Hls.ERROR data) =>
      Hls.fatal data = false
      \/ Hls.type data = Hls.NETWORK_ERROR
      \/ Hls.type data = Hls.MEDIA_ERROR
  | Player.Clicked (Player.ChangeQuality _) => False
  | _ => True
  end.

(** [q] differs from [p] in nothing of the client, the quality list or
    the selection, except that it may show an error message where [p]
    showed none. *)
Definition keeps (p q : Player.t) : Prop :=
  Player.hlsRef q = Player.hlsRef p
  /\ Player.qualities q = Player.qualities p
  /\ Player.currentQualityIndex q = Player.currentQualityIndex p
  /\ Player.nextHls q = Player.nextHls p
  /\ ((exists v, Player.videoRef p = Some v) ->
      exists v, Player.videoRef q = Some v)
  /\ (Player.errorShown p = true -> Player.errorShown q = true).

End Spec.

(* ================================================================== *)
(** ** Sample inputs *)
(* ================================================================== *)

Module Examples.
Import JsString Player.

(** A browser where hls.js runs, one that plays HLS by itself only, and
    one with neither. *)
Definition withHlsJs : Platform := mkPlatform true (fun _ => Video.cannot).
Definition nativeOnly : Platform := mkPlatform false (fun _ => Video.maybe).
Definition neither : Platform := mkPlatform false (fun _ => Video.cannot).

Definition manifestUrl : JsString.t := lit "https://h/live/index.M3U8?t=1".
Definition fileUrl : JsString.t := lit "https://h/clip.mp4".
Definition otherFileUrl : JsString.t := lit "https://h/next.mp4".

Definition level (height : Z) : Hls.Level :=
  Hls.mkLevel height (height * 2000) None.

(** Six renditions, listed out of order, two of one height and one of
    unknown height. *)
Definition ladder : Hls.ManifestParsedData :=
  Hls.mkManifestParsedData
    [level 360; level 1080; level 720; level 2160; level 0; level 1080].

(** The element stalls and the client recovers from a network error
    before the manifest is there. *)
Definition meanwhile : list Event :=
  [FromVideo ev_waiting;
   FromHls (Hls.ERROR (Hls.mkErrorData true Hls.NETWORK_ERROR));
   Clicked ToggleMute].

(** A session on hls.js, before and after its manifest is parsed. *)
Definition loading : Player.t := mount withHlsJs manifestUrl Video.fresh.
Definition parsed : Player.t := hlsEmit (Hls.MANIFEST_PARSED ladder) loading.

(** The client of that session. *)
Definition client : Hls.Instance :=
  Hls.mkInstance 0 HLS_CONFIG (Some manifestUrl) true
                 [Hls.ON_MANIFEST_PARSED; Hls.ON_ERROR] (-1) false.

(** The entry the sorted list of [parsed] shows first, and a fatal error
    that is neither a network nor a media error. *)
Definition tallest : QualityLevel := toQualityLevel (level 2160) 3.
Definition fatalOther : Hls.ErrorData := Hls.mkErrorData true Hls.OTHER_ERROR.

(** A first session on a plain file. *)
Definition onFile : Player.t := mount neither fileUrl Video.fresh.

(** A file is playing when a second file is submitted; the element then
    drops its playback without a [pause] event, fires [loadeddata] for the
    new file and rejects the [play] its listener asked for. *)
Definition secondFile : list Event :=
  [FromVideo ev_play;
   SrcChanged otherFileUrl;
   FromVideo ev_loadeddata;
   PlayRejected inLoadedData].

End Examples.

(* ================================================================== *)
(** ** More of the rendered tree *)
(* ================================================================== *)

(** The parts of the controls bar whose look depends on the state cells:
    the play button, the mute button, the volume control and the coloured
    badge of a quality entry. *)
Module Widgets.
Import JsString Player.

(** [===] on two strings. *)
Fixpoint sameText (a b : JsString.t) : bool :=
  match a, b with
  | [], [] => true
  | x :: a', y :: b' => (x =? y)%N && sameText a' b'
  | _, _ => false
  end.

(** [getLabelColor]; its argument is the optional [label] of a level. *)
Definition getLabelColor (label : option JsString.t) : JsString.t :=
  match label with
  | Some l =>
      if sameText l (lit "4K") || sameText l (lit "2K") then lit "bg-purple-600"
      else if sameText l (lit "FHD") then lit "bg-red-600"
      else if sameText l (lit "HD") then lit "bg-blue-600"
      else lit "bg-gray-600"
  | None => lit "bg-gray-600"
  end.

(** The class of the badge in the menu entry of [q]. *)
Definition badgeColor (q : QualityLevel) : JsString.t :=
  getLabelColor (Some (label q)).

(** [isPlaying ? <Pause/> : <Play/>]. *)
Definition pauseIcon (p : Player.t) : bool := isPlaying p.

(** [isMuted || volume === 0 ? <VolumeX/> : <Volume2/>]. *)
Definition mutedIcon (p : Player.t) : bool :=
  isMuted p || (volume p =? 0)%float.

(** [value={isMuted ? 0 : volume}] of the volume control. *)
Definition sliderValue (p : Player.t) : float :=
  if isMuted p then 0%float else volume p.

End Widgets.

(* ================================================================== *)
(** ** Auto-hiding controls *)
(* ================================================================== *)

(** [showControls], [controlsTimeoutRef], [handleMouseMove], the effect on
    [isPlaying] and [onMouseLeave].  The three seconds of a timeout are not
    counted: a timeout is pending until it is cleared or it elapses.  Every
    [setTimeout] of the source comes after a [clearTimeout] of the ref that
    holds the previous one, so at most one is pending.  The effect on
    [isPlaying] is taken to run with the change of the cell. *)
Module Controls.

(** The callback of a pending timeout. *)
Inductive Timeout :=
| hideIfPlaying (isPlaying : bool)  (* of [handleMouseMove], closing over the cell *)
| hide.                             (* of the effect *)

Record t := mk {
  isPlaying : bool;
  showControls : bool;
  pending : option Timeout
}.

Definition handleMouseMove (c : t) : t :=
  mk (isPlaying c) true (Some (hideIfPlaying (isPlaying c))).

Definition onMouseLeave (c : t) : t :=
  if isPlaying c then mk (isPlaying c) false (pending c) else c.

(** The effect with [isPlaying] as its dependency. *)
Definition effect (c : t) : t :=
  if negb (isPlaying c) then mk (isPlaying c) true None
  else mk (isPlaying c) (showControls c) (Some hide).

(** [setIsPlaying]: a new value renders again and runs the effect. *)
Definition setIsPlaying (b : bool) (c : t) : t :=
  if Bool.eqb b (isPlaying c) then c
  else effect (mk b (showControls c) (pending c)).

(** The pending timeout elapses. *)
Definition elapse (c : t) : t :=
  match pending c with
  | Some (hideIfPlaying b) =>
      mk (isPlaying c) (if b then false else showControls c) None
  | Some hide => mk (isPlaying c) false None
  | None => c
  end.

(** The component after its first render and effect. *)
Definition mounted : t := effect (mk false true None).

Inductive Event :=
| MouseMoved
| MouseLeft
| Played        (* the element's [play] event *)
| Paused        (* the element's [pause] event, or a rejected autoplay *)
| Elapsed.

Definition step (e : Event) : t -> t :=
  match e with
  | MouseMoved => handleMouseMove
  | MouseLeft => onMouseLeave
  | Played => setIsPlaying true
  | Paused => setIsPlaying false
  | Elapsed => elapse
  end.

Definition run (es : list Event) (c : t) : t :=
  fold_left (fun d e => step e d) es c.

(** What the runs keep: paused, the controls are visible and no timeout
    of the effect is pending; a pending timeout of [handleMouseMove] closed
    over the present value of the cell; playing, the controls are hidden or
    a timeout is pending. *)
Definition steady (c : t) : Prop :=
  (isPlaying c = false -> showControls c = true /\ pending c <> Some hide)
  /\ (forall b, pending c = Some (hideIfPlaying b) -> b = isPlaying c)
  /\ (isPlaying c = true -> showControls c = false \/ pending c <> None).

End Controls.

(* ================================================================== *)
(** ** Observations on a run *)
(* ================================================================== *)

(** Readings of the call log and of the refs that the statements below
    are about. *)
Module Observe.
Import Player.

(** The clients that have been made and not destroyed, from the log. *)
Definition track (live : list nat) (c : Call) : list nat :=
  match c with
  | HlsNew i _ => live ++ [i]
  | HlsDestroy i => filter (fun j => negb (j =? i)%nat) live
  | _ => live
  end.

Definition liveClients (cs : list Call) : list nat := fold_left track cs [].

(** The live client the component holds, if any. *)
Definition held (p : Player.t) : list nat :=
  match hlsRef p with
  | Some h => if Hls.destroyed h then [] else [Hls.id h]
  | None => []
  end.

(** The listeners [loadVideo] has left on the mounted element. *)
Definition listenersOf (p : Player.t) : list Video.Listener :=
  match videoRef p with
  | Some v => Video.listeners v
  | None => []
  end.


Definition isError (l : Video.Listener) : bool :=
  match l with Video.on_error => true | _ => false end.

(** [q] is [p] after statements that make or destroy no client, keep the
    held one, add no listener, show no other error message than the one of
    the file listener, and do not clear the live flag. *)
Definition calm (p q : Player.t) : Prop :=
  held q = held p
  /\ (hlsRef p = None -> hlsRef q = None)
  /\ liveClients (calls q) = liveClients (calls p)
  /\ qualities q = qualities p
  /\ (error q = error p \/ error q = Some FILE_ERROR)
  /\ (isLive p = true -> isLive q = true)
  /\ ((exists v, videoRef p = Some v) -> exists v, videoRef q = Some v)
  /\ listenersOf q = listenersOf p.

(** An address that [loadVideo] treats as a plain file on platform [P]. *)
Definition direct (P : Platform) (src : JsString.t) : Prop :=
  isHlsSource src
  && (isSupported P || Video.truthy (canPlayType P MPEGURL)) = false.


(** Events that leave the address alone and bring no parsed manifest. *)
Definition sameSession (e : Event) : Prop :=
  match e with
  | SrcChanged _ => False
  | FromHls (Hls.MANIFEST_PARSED _) => False
  | _ => True
  end.


End Observe.

(* ================================================================== *)
(** ** The page shell as a transition system *)
(* ================================================================== *)

Module ShellRun.
Import Shell.

Inductive Event :=
| Typed (v : JsString.t)   (* [onChange] of the field *)
| Submitted.               (* [onSubmit] of the form *)

Definition step (e : Event) : State -> State :=
  match e with
  | Typed v => setUrlInput v
  | Submitted => handleUrlSubmit
  end.

Definition run (es : list Event) (st : State) : State :=
  fold_left (fun s e => step e s) es st.

(** What the runs keep: the active address is not empty and trimming it
    changes nothing. *)
Definition tidy (st : State) : Prop :=
  streamUrl st <> [] /\ JsString.trim (streamUrl st) = streamUrl st.

End ShellRun.

(* ================================================================== *)
(** ** More sample inputs *)
(* ================================================================== *)

Module Scenarios.
Import JsString Player.

(** A file address whose query string names a manifest. *)
Definition fileWithManifestQuery : JsString.t :=
  lit "https://h/clip.mp4?from=list.M3U8".


(** A file session, then a session on hls.js. *)
Definition fileThenStream : list Event :=
  [SrcChanged Examples.manifestUrl;
   FromHls (Hls.MANIFEST_PARSED Examples.ladder)].

(** The player after that run, mounted where hls.js is supported. *)
Definition streamAfterFile : Player.t :=
  run Examples.withHlsJs fileThenStream
    (mount Examples.withHlsJs Examples.fileUrl Video.fresh).


(** A live stream is found out by a time update; the session goes on. *)
Definition foundLive : Player.t :=
  videoEmit (ev_timeupdate 1 infinity) Examples.onFile.

Definition goingOn : list Event :=
  [FromVideo ev_waiting; FromVideo (ev_timeupdate 2 3); Clicked TogglePlay].

(** The element of the first file session. *)
Definition fileElement : Video.Element :=
  Video.addEventListener Video.on_error
    (Video.addEventListener Video.on_loadeddata
       (Video.setSrc Examples.fileUrl Video.fresh)).

(** The pointer moves over a playing video, which is then paused before
    the timeout elapses. *)
Definition pausedAgain : list Controls.Event :=
  [Controls.Played; Controls.MouseMoved; Controls.Paused; Controls.Elapsed].

(** Typing an address between blanks, submitting, then blanking the field
    and submitting again. *)
Definition typing : list ShellRun.Event :=
  [ShellRun.Typed (lit "  http://h/v.mp4 "); ShellRun.Submitted;
   ShellRun.Typed (lit "   "); ShellRun.Submitted].

End Scenarios.

(* ================================================================== *)
(** ** Facts about the string and array methods *)
(* ================================================================== *)

Module JsStringFacts.
Import JsString.

Lemma dropWhile_all (p : N -> bool) (s : t) :
  forallb p s = true -> dropWhile p s = [].
Proof.
  induction s as [|c s IH]; simpl; [reflexivity|].
  intros H. apply andb_true_iff in H as [Hc Hs].
  rewrite Hc. auto.
Qed.

Lemma dropWhile_nil (p : N -> bool) (s : t) :
  dropWhile p s = [] -> forallb p s = true.
Proof.
  induction s as [|c s IH]; simpl; [reflexivity|].
  destruct (p c) eqn:Hc; [auto | discriminate].
Qed.

(** What [dropWhile] drops is a prefix on which the test holds. *)
Lemma dropWhile_split (p : N -> bool) (s : t) :
  exists l, s = l ++ dropWhile p s /\ forallb p l = true.
Proof.
  induction s as [|c s [l [E Hl]]]; simpl.
  - exists []. auto.
  - destruct (p c) eqn:Hc.
    + exists (c :: l). simpl. rewrite Hc, Hl. split; [congruence | reflexivity].
    + exists []. auto.
Qed.

(** What is left does not start with a dropped unit. *)
Lemma dropWhile_head (p : N -> bool) (s : t) (c : N) (r : t) :
  dropWhile p s = c :: r -> p c = false.
Proof.
  induction s as [|d s IH]; simpl; [discriminate|].
  destruct (p d) eqn:Hd; [exact IH|].
  intros E. injection E as -> _. exact Hd.
Qed.

Lemma forallb_rev (p : N -> bool) (s : t) :
  forallb p (rev s) = forallb p s.
Proof.
  induction s as [|c s IH]; simpl; [reflexivity|].
  rewrite forallb_app, IH. simpl. rewrite andb_true_r. apply andb_comm.
Qed.

Lemma dropWhile_idem_blank (p : N -> bool) (s : t) :
  forallb p (dropWhile p s) = true -> dropWhile p s = [].
Proof.
  destruct (dropWhile p s) as [|c r] eqn:E; [reflexivity|].
  apply dropWhile_head in E. simpl. rewrite E. discriminate.
Qed.

(** [trim] gives the empty string exactly on blank strings. *)
Lemma trim_nil_iff (s : t) : trim s = [] <-> Spec.blank s.
Proof.
  unfold trim, trimEnd, trimStart, Spec.blank. split.
  - intros H.
    assert (H' : dropWhile isWhiteSpace (rev (dropWhile isWhiteSpace s)) = []).
    { rewrite <- (rev_involutive (dropWhile _ (rev _))), H. reflexivity. }
    apply dropWhile_nil in H'. rewrite forallb_rev in H'.
    apply dropWhile_idem_blank in H'. apply dropWhile_nil. exact H'.
  - intros H. rewrite (dropWhile_all _ _ H). reflexivity.
Qed.

Lemma truthy_trim (s : t) :
  truthy (trim s) = negb (forallb isWhiteSpace s).
Proof.
  destruct (forallb isWhiteSpace s) eqn:E.
  - apply trim_nil_iff in E. rewrite E. reflexivity.
  - destruct (trim s) eqn:T; [|reflexivity].
    apply trim_nil_iff in T. unfold Spec.blank in T. congruence.
Qed.

(** [trim] cuts a blank prefix and a blank suffix off its argument... *)
Lemma trim_split (s : t) :
  exists l r, s = l ++ trim s ++ r /\ Spec.blank l /\ Spec.blank r.
Proof.
  unfold trim, trimEnd, trimStart, Spec.blank.
  destruct (dropWhile_split isWhiteSpace s) as [l [El Hl]].
  destruct (dropWhile_split isWhiteSpace (rev (dropWhile isWhiteSpace s)))
    as [r [Er Hr]].
  exists l, (rev r). repeat split; [|exact Hl|rewrite forallb_rev; exact Hr].
  rewrite <- rev_app_distr, <- Er, rev_involutive. exact El.
Qed.

(** ... and what it leaves neither starts nor ends with white space. *)
Lemma trim_ends (s : t) :
  (forall c r, trim s = c :: r -> isWhiteSpace c = false)
  /\ (forall c r, trim s = r ++ [c] -> isWhiteSpace c = false).
Proof.
  unfold trim, trimEnd, trimStart. split; intros c r E.
  - destruct (dropWhile isWhiteSpace s) as [|d u] eqn:D.
    + simpl in E. discriminate.
    + pose proof (dropWhile_head _ _ D) as Hd.
      destruct (dropWhile_split isWhiteSpace (rev (d :: u))) as [l [El Hl]].
      assert (R : d :: u = c :: r ++ rev l).
      { rewrite <- (rev_involutive (d :: u)), El, rev_app_distr, E.
        reflexivity. }
      injection R as -> _. exact Hd.
  - assert (R : dropWhile isWhiteSpace (rev (dropWhile isWhiteSpace s))
                = c :: rev r).
    { rewrite <- (rev_involutive (dropWhile _ (rev _))), E, rev_app_distr.
      reflexivity. }
    exact (dropWhile_head _ _ R).
Qed.

Lemma startsWith_iff (s needle : t) :
  startsWith s needle = true <-> exists b, s = needle ++ b.
Proof.
  revert s. induction needle as [|n needle IH]; intros s; simpl.
  - split; [exists s; reflexivity | destruct s; reflexivity].
  - destruct s as [|c s].
    + split; [discriminate | intros [b E]; discriminate].
    + cbn [startsWith]. rewrite andb_true_iff, N.eqb_eq, IH. split.
      * intros [-> [b ->]]. exists b. reflexivity.
      * intros [b E]. injection E as -> ->. split; [reflexivity | eauto].
Qed.

(** [includes] finds the needle as a contiguous run of code units. *)
Lemma includes_iff (s needle : t) :
  includes s needle = true <-> exists a b, s = a ++ needle ++ b.
Proof.
  induction s as [|c s IH].
  - cbn [includes]. rewrite orb_false_r, startsWith_iff. split.
    + intros [b E]. exists [], b. exact E.
    + intros [a [b E]]. destruct a; [eauto | discriminate].
  - cbn [includes]. rewrite orb_true_iff, startsWith_iff, IH. split.
    + intros [[b E] | [a [b E]]].
      * exists [], b. exact E.
      * exists (c :: a), b. simpl. congruence.
    + intros [[|d a] [b E]].
      * left. exists b. exact E.
      * right. injection E as -> ->. eauto.
Qed.

End JsStringFacts.

Module JsArrayFacts.
Import JsArray.

Section Map.
Variables (A B : Type) (f : A -> nat -> B).

Lemma mapFrom_length (l : list A) (i : nat) :
  List.length (mapFrom f i l) = List.length l.
Proof.
  revert i. induction l as [|x l IH]; intros i; simpl; [reflexivity|].
  rewrite IH. reflexivity.
Qed.

(** The callback sees each element with its own position. *)
Lemma mapFrom_nth_error (l : list A) (i k : nat) :
  nth_error (mapFrom f i l) k = option_map (fun x => f x (i + k)) (nth_error l k).
Proof.
  revert i k. induction l as [|x l IH]; intros i k; simpl.
  - destruct k; reflexivity.
  - destruct k as [|k]; simpl.
    + rewrite Nat.add_0_r. reflexivity.
    + rewrite IH. replace (S i + k) with (i + S k) by lia. reflexivity.
Qed.

Lemma mapFrom_In (l : list A) (i : nat) (y : B) :
  In y (mapFrom f i l) ->
  exists k x, nth_error l k = Some x /\ y = f x (i + k).
Proof.
  revert i. induction l as [|x l IH]; intros i; simpl; [tauto|].
  intros [<- | H].
  - exists 0, x. rewrite Nat.add_0_r. auto.
  - destruct (IH _ H) as [k [x' [E ->]]].
    exists (S k), x'. split; [exact E | f_equal; lia].
Qed.

Lemma map_length (l : list A) : List.length (map f l) = List.length l.
Proof. apply mapFrom_length. Qed.

Lemma map_In (l : list A) (y : B) :
  In y (map f l) -> exists k x, nth_error l k = Some x /\ y = f x k.
Proof. intros H. exact (mapFrom_In _ _ _ H). Qed.

End Map.

Section Sort.
Variables (A : Type) (compare : A -> A -> Z).

Lemma insert_perm (x : A) (l : list A) :
  Permutation (x :: l) (insert compare x l).
Proof.
  induction l as [|y l IH]; simpl; [reflexivity|].
  destruct (compare x y <=? 0)%Z; [reflexivity|].
  rewrite perm_swap. apply perm_skip. exact IH.
Qed.

(** Sorting rearranges the entries and changes none of them. *)
Lemma sort_perm (l : list A) : Permutation l (sort compare l).
Proof.
  induction l as [|x l IH]; simpl; [constructor|].
  rewrite <- insert_perm. apply perm_skip. exact IH.
Qed.

Lemma sort_length (l : list A) :
  List.length (sort compare l) = List.length l.
Proof. symmetry. apply Permutation_length, sort_perm. Qed.

Lemma sort_In (l : list A) (x : A) : In x (sort compare l) <-> In x l.
Proof.
  split; apply Permutation_in; [symmetry|]; apply sort_perm.
Qed.

(** The order the comparator stands for: [x] may come before [y]. *)
Let before (x y : A) : Prop := (compare x y <= 0)%Z.

Hypothesis before_total : forall x y, before x y \/ before y x.
Hypothesis before_trans : forall x y z, before x y -> before y z -> before x z.

Lemma insert_sorted (x : A) (l : list A) :
  StronglySorted before l -> StronglySorted before (insert compare x l).
Proof.
  induction 1 as [|y l Hs IH Hy]; simpl.
  - repeat constructor.
  - destruct (compare x y <=? 0)%Z eqn:E.
    + apply Z.leb_le in E. constructor.
      * constructor; assumption.
      * constructor; [exact E|].
        rewrite Forall_forall in Hy |- *. intros z Hz.
        exact (before_trans E (Hy z Hz)).
    + apply Z.leb_gt in E. constructor; [exact IH|].
      rewrite Forall_forall in Hy |- *. intros z Hz.
      apply (Permutation_in _ (Permutation_sym (insert_perm x l))) in Hz.
      destruct Hz as [<- | Hz]; [|auto].
      destruct (before_total x y) as [H | H]; [unfold before in H; lia | exact H].
Qed.

(** With a consistent comparator the result is in order. *)
Lemma sort_sorted (l : list A) : StronglySorted before (sort compare l).
Proof.
  induction l as [|x l IH]; simpl; [constructor|].
  apply insert_sorted. exact IH.
Qed.

End Sort.

End JsArrayFacts.

(* ================================================================== *)
(** ** The page shell *)
(* ================================================================== *)

Module ShellFacts.
Import JsString Shell.

Lemma handleUrlSubmit_streamUrl (st : State) :
  streamUrl (handleUrlSubmit st)
  = if forallb isWhiteSpace (urlInput st) then streamUrl st
    else trim (urlInput st).
Proof.
  unfold handleUrlSubmit. rewrite JsStringFacts.truthy_trim.
  destruct (forallb isWhiteSpace (urlInput st)); reflexivity.
Qed.

Lemma handleUrlSubmit_urlInput (st : State) :
  urlInput (handleUrlSubmit st) = urlInput st.
Proof.
  unfold handleUrlSubmit. destruct (truthy _); reflexivity.
Qed.

(** C7.  A submission whose trimmed field text is not empty makes exactly
    that trimmed text the address handed to the player, whatever the text
    is (nothing about it is validated); a submission of a blank field (empty
    or white space only) leaves the address as it was.  Apart from that the
    two strings are independent: a submission never changes the field text,
    and typing into the field changes the field text only. *)
Theorem handleUrlSubmit_spec (st : State) :
  (trim (urlInput st) <> [] ->
   playerSrc (handleUrlSubmit st) = trim (urlInput st))
  /\ (Spec.blank (urlInput st) ->
      playerSrc (handleUrlSubmit st) = playerSrc st)
  /\ urlInput (handleUrlSubmit st) = urlInput st
  /\ (forall v, playerSrc (setUrlInput v st) = playerSrc st
                /\ urlInput (setUrlInput v st) = v).
Proof.
  unfold playerSrc. repeat split.
  - intros H. rewrite handleUrlSubmit_streamUrl.
    destruct (forallb isWhiteSpace (urlInput st)) eqn:E; [|reflexivity].
    apply JsStringFacts.trim_nil_iff in E. contradiction.
  - intros H. rewrite handleUrlSubmit_streamUrl.
    unfold Spec.blank in H. rewrite H. reflexivity.
  - apply handleUrlSubmit_urlInput.
Qed.

(** The field holds an address between blanks, then only blanks. *)
Lemma handleUrlSubmit_spec_witness :
  playerSrc (handleUrlSubmit (setUrlInput (lit "  http://h/v.mp4 ") init))
  = lit "http://h/v.mp4"
  /\ playerSrc (handleUrlSubmit (setUrlInput (lit "   ") init))
     = DEFAULT_STREAM.
Proof.
  split.
  - refine (proj1 (handleUrlSubmit_spec
                     (setUrlInput (lit "  http://h/v.mp4 ") init)) _).
    vm_compute. discriminate.
  - refine (proj1 (proj2 (handleUrlSubmit_spec
                            (setUrlInput (lit "   ") init))) _).
    vm_compute. reflexivity.
Defined.

End ShellFacts.

(* ================================================================== *)
(** ** The player *)
(* ================================================================== *)

Module PlayerFacts.
Import JsString Player.

Arguments isHlsSource : simpl never.
Arguments getResolutionLabel : simpl never.

(** Unfolds the statements of the handlers down to the setters. *)
Ltac handlers :=
  unfold changeSrc, cleanup, setup, loadVideo, newHls, addListener,
         onManifestParsed, onHlsError, onLoadedMetadata, onLoadedData,
         onVideoError, onTimeUpdate, onPlay, onPause, onWaiting, onPlaying,
         togglePlay, toggleMute, handleVolumeChange, changeQuality, seekTo,
         toggleSettings, closeSettings, play, cells,
         seq, skip, onVideo, onHls in *.

(** Reads the two refs off the hypotheses wherever a handler tests them. *)
Ltac refs :=
  repeat (cbn in *;
          match goal with
          | H : videoRef _ = _ |- context [videoRef _] => rewrite H
          | H : hlsRef _ = _ |- context [hlsRef _] => rewrite H
          end); cbn in *.

(** *** Strategy selection *)

(** An address looks like a manifest when its lower-cased text holds the
    HLS extension or the HLS MIME type somewhere. *)
Lemma isHlsSource_iff (src : JsString.t) :
  isHlsSource src = true
  <-> exists a b, toLowerCase src = a ++ lit ".m3u8" ++ b
                  \/ toLowerCase src = a ++ MPEGURL ++ b.
Proof.
  unfold isHlsSource.
  rewrite orb_true_iff, !JsStringFacts.includes_iff. split.
  - intros [(a & b & E) | (a & b & E)]; exists a, b; auto.
  - intros (a & b & [E | E]); [left | right]; eauto.
Qed.

Lemma loadVideo_adaptive (P : Platform) (src : JsString.t) (p : t) :
  isHlsSource src = true -> isSupported P = true ->
  let p' := loadVideo P src p in
  hlsRef p' = Some (Hls.mkInstance (nextHls p) HLS_CONFIG (Some src) true
                      [Hls.ON_MANIFEST_PARSED; Hls.ON_ERROR] (-1) false)
  /\ calls p' = calls p ++ [HlsNew (nextHls p) HLS_CONFIG;
                            HlsLoadSource (nextHls p) src;
                            HlsAttachMedia (nextHls p);
                            HlsOn (nextHls p) Hls.ON_MANIFEST_PARSED;
                            HlsOn (nextHls p) Hls.ON_ERROR]
  /\ videoRef p' = videoRef p
  /\ nextHls p' = S (nextHls p)
  /\ cells p' = cells p.
Proof.
  intros Hs Hp. handlers. rewrite Hs, Hp. cbn.
  repeat split. rewrite <- !app_assoc. reflexivity.
Qed.

Lemma loadVideo_native (P : Platform) (src : JsString.t) (p : t)
      (v : Video.Element) :
  isHlsSource src = true -> isSupported P = false ->
  Video.truthy (canPlayType P MPEGURL) = true ->
  videoRef p = Some v ->
  let p' := loadVideo P src p in
  videoRef p' = Some (Video.addEventListener Video.on_loadedmetadata
                        (Video.setSrc src v))
  /\ calls p' = calls p ++ [VideoSetSrc src;
                            VideoAddEventListener Video.on_loadedmetadata]
  /\ hlsRef p' = hlsRef p
  /\ nextHls p' = nextHls p
  /\ cells p' = cells p.
Proof.
  intros Hs Hp Hc Hv. handlers. rewrite Hs, Hp, Hc. refs.
  repeat split. rewrite <- !app_assoc. reflexivity.
Qed.

Lemma loadVideo_direct (P : Platform) (src : JsString.t) (p : t)
      (v : Video.Element) :
  isHlsSource src && (isSupported P || Video.truthy (canPlayType P MPEGURL))
  = false ->
  videoRef p = Some v ->
  let p' := loadVideo P src p in
  videoRef p' = Some (Video.addEventListener Video.on_error
                        (Video.addEventListener Video.on_loadeddata
                           (Video.setSrc src v)))
  /\ calls p' = calls p ++ [VideoSetSrc src; VideoLoad;
                            VideoAddEventListener Video.on_loadeddata;
                            VideoAddEventListener Video.on_error]
  /\ hlsRef p' = hlsRef p
  /\ nextHls p' = nextHls p
  /\ cells p' = cells (setQualities [] p).
Proof.
  intros Hc Hv. handlers.
  assert (E1 : isHlsSource src && isSupported P = false)
    by (destruct (isHlsSource src), (isSupported P); auto; discriminate).
  assert (E2 : isHlsSource src && Video.truthy (canPlayType P MPEGURL) = false)
    by (destruct (isHlsSource src), (isSupported P),
                 (Video.truthy (canPlayType P MPEGURL)); auto; discriminate).
  rewrite E1, E2. refs.
  repeat split. rewrite <- !app_assoc. reflexivity.
Qed.

(** C1.  [loadVideo] follows the specification's priority list.  With the
    element mounted, it does by first match: (1) for an address that holds
    an HLS extension or MIME hint, with hls.js supported, it makes a client,
    starts loading the address on it, attaches it to the element and
    subscribes to its two events, and leaves the element's own source alone;
    (2) else, for such an address that the platform plays natively, it
    assigns the address as the element's source (and asks for no load);
    (3) else it assigns the address as the source and calls [load]. *)
Theorem loadVideo_strategy (P : Platform) (src : JsString.t) (p : t)
        (v : Video.Element) :
  videoRef p = Some v ->
  let p' := loadVideo P src p in
  match Spec.strategyByPriority (isHlsSource src) (isSupported P)
          (Video.truthy (canPlayType P MPEGURL)) with
  | Spec.AdaptiveClient =>
      hlsRef p' = Some (Hls.mkInstance (nextHls p) HLS_CONFIG (Some src) true
                          [Hls.ON_MANIFEST_PARSED; Hls.ON_ERROR] (-1) false)
      /\ calls p' = calls p ++ [HlsNew (nextHls p) HLS_CONFIG;
                                HlsLoadSource (nextHls p) src;
                                HlsAttachMedia (nextHls p);
                                HlsOn (nextHls p) Hls.ON_MANIFEST_PARSED;
                                HlsOn (nextHls p) Hls.ON_ERROR]
      /\ videoRef p' = Some v
  | Spec.NativeAdaptive =>
      videoRef p' = Some (Video.addEventListener Video.on_loadedmetadata
                            (Video.setSrc src v))
      /\ calls p' = calls p ++ [VideoSetSrc src;
                                VideoAddEventListener Video.on_loadedmetadata]
      /\ hlsRef p' = hlsRef p
  | Spec.DirectFile =>
      videoRef p' = Some (Video.addEventListener Video.on_error
                            (Video.addEventListener Video.on_loadeddata
                               (Video.setSrc src v)))
      /\ calls p' = calls p ++ [VideoSetSrc src; VideoLoad;
                                VideoAddEventListener Video.on_loadeddata;
                                VideoAddEventListener Video.on_error]
      /\ hlsRef p' = hlsRef p
  end.
Proof.
  intros Hv. cbv zeta. unfold Spec.strategyByPriority.
  destruct (isHlsSource src) eqn:Hs; cbn [andb].
  - destruct (isSupported P) eqn:Hp.
    + destruct (loadVideo_adaptive P src p Hs Hp) as (A & B & C & _).
      repeat split; [exact A | exact B | congruence].
    + destruct (Video.truthy (canPlayType P MPEGURL)) eqn:Hc.
      * destruct (loadVideo_native P src p Hs Hp Hc Hv) as (A & B & C & _).
        auto.
      * assert (E : isHlsSource src
                    && (isSupported P || Video.truthy (canPlayType P MPEGURL))
                    = false) by (rewrite Hs, Hp, Hc; reflexivity).
        destruct (loadVideo_direct P src p E Hv) as (A & B & C & _). auto.
  - assert (E : isHlsSource src
                && (isSupported P || Video.truthy (canPlayType P MPEGURL))
                = false) by (rewrite Hs; reflexivity).
    destruct (loadVideo_direct P src p E Hv) as (A & B & C & _). auto.
Qed.

(** *** A new address *)

(** The calls that take the client held in [hlsRef] down when the address
    changes: one [destroy] from the cleanup of the previous effect, one more
    from the effect itself, which then empties the ref. *)
Lemma changeSrc_resets (P : Platform) (src : JsString.t) (p : t)
      (v : Video.Element) :
  videoRef p = Some v ->
  exists p0,
    changeSrc P src p = loadVideo P src p0
    /\ videoRef p0 = Some v
    /\ hlsRef p0 = None
    /\ nextHls p0 = nextHls p
    /\ calls p0 = calls p ++ match hlsRef p with
                             | Some h => [HlsDestroy (Hls.id h);
                                          HlsDestroy (Hls.id h)]
                             | None => []
                             end
    /\ cells p0 = (isPlaying p, isMuted p, volume p, true, None, duration p,
                   currentTime p, false, [], (-1)%Z, showSettings p).
Proof.
  intros Hv. handlers. destruct (hlsRef p) as [h|] eqn:Hh; refs.
  - eexists. split; [reflexivity|]. cbn.
    repeat split; [exact Hv | rewrite <- app_assoc; reflexivity].
  - eexists. split; [reflexivity|]. cbn.
    repeat split; [exact Hv | exact Hh | rewrite app_nil_r; reflexivity].
Qed.

(** Whatever the strategy, [loadVideo] destroys nothing, makes at most the
    client numbered [nextHls], and leaves the cells alone but for the
    quality list, which it may empty. *)
Lemma loadVideo_frame (P : Platform) (src : JsString.t) (p : t)
      (v : Video.Element) :
  videoRef p = Some v ->
  let p' := loadVideo P src p in
  exists made,
    calls p' = calls p ++ made
    /\ (forall i, ~ In (HlsDestroy i) made)
    /\ (forall i c, In (HlsNew i c) made -> i = nextHls p)
    /\ (hlsRef p' = hlsRef p /\ nextHls p' = nextHls p
        \/ exists h, hlsRef p' = Some h /\ Hls.id h = nextHls p
                     /\ Hls.destroyed h = false /\ Hls.url h = Some src
                     /\ In (HlsNew (nextHls p) HLS_CONFIG) made
                     /\ nextHls p' = S (nextHls p))
    /\ (exists v', videoRef p' = Some v')
    /\ (cells p' = cells p \/ cells p' = cells (setQualities [] p)).
Proof.
  intros Hv. cbv zeta.
  destruct (isHlsSource src
            && (isSupported P || Video.truthy (canPlayType P MPEGURL)))
    eqn:E.
  - apply andb_true_iff in E as [Hs E].
    destruct (isSupported P) eqn:Hp.
    + destruct (loadVideo_adaptive P src p Hs Hp) as (A & B & C & D & F).
      eexists. split; [exact B|]. repeat split.
      * intros i H. cbn in H. intuition discriminate.
      * intros i c H. cbn in H.
        destruct H as [H|H]; [congruence | intuition discriminate].
      * right. eexists. split; [exact A|]. cbn. auto 7.
      * exists v. congruence.
      * left. exact F.
    + cbn in E.
      destruct (loadVideo_native P src p Hs Hp E Hv) as (A & B & C & D & F).
      eexists. split; [exact B|]. repeat split.
      * intros i H. cbn in H. intuition discriminate.
      * intros i c H. cbn in H. intuition discriminate.
      * left. auto.
      * eauto.
      * left. exact F.
  - destruct (loadVideo_direct P src p E Hv) as (A & B & C & D & F).
    eexists. split; [exact B|]. repeat split.
    + intros i H. cbn in H. intuition discriminate.
    + intros i c H. cbn in H. intuition discriminate.
    + left. auto.
    + eauto.
    + right. exact F.
Qed.

(** C3.  On every change of the address, with the element mounted and
    whatever state the previous session left: a client held from before is
    destroyed first (by the cleanup of the previous effect and again by the
    effect), and only the calls after that may make the replacement, which
    is a new, live client; the quality list is empty, the selection is
    automatic (-1), no error message is left, the live flag is clear and the
    player is buffering. *)
Theorem changeSrc_new_session (P : Platform) (src : JsString.t) (p : t)
        (v : Video.Element) :
  videoRef p = Some v ->
  let p' := changeSrc P src p in
  qualities p' = []
  /\ currentQualityIndex p' = (-1)%Z
  /\ error p' = None
  /\ isLive p' = false
  /\ isBuffering p' = true
  /\ exists made,
       calls p' = calls p
                  ++ match hlsRef p with
                     | Some old => [HlsDestroy (Hls.id old);
                                    HlsDestroy (Hls.id old)]
                     | None => []
                     end
                  ++ made
       /\ (forall i, ~ In (HlsDestroy i) made)
       /\ (forall i c, In (HlsNew i c) made -> i = nextHls p)
       /\ (hlsRef p' = None
           \/ exists h, hlsRef p' = Some h /\ Hls.id h = nextHls p
                        /\ Hls.destroyed h = false
                        /\ In (HlsNew (nextHls p) HLS_CONFIG) made).
Proof.
  intros Hv. cbv zeta.
  destruct (changeSrc_resets P src p Hv) as (p0 & E & V0 & H0 & N0 & C0 & S0).
  rewrite E.
  destruct (loadVideo_frame P src p0 V0) as (made & A & B & C & D & _ & F).
  cbv zeta in *. rewrite N0 in *.
  assert (S : cells (loadVideo P src p0)
              = (isPlaying p, isMuted p, volume p, true, None, duration p,
                 currentTime p, false, [], (-1)%Z, showSettings p)).
  { destruct F as [F|F]; rewrite F; [exact S0|].
    unfold cells in *. cbn. injection S0 as -> -> -> -> -> -> -> -> _ -> ->.
    reflexivity. }
  unfold cells in S. injection S as _ _ _ Sb Se _ _ Sl Sq Si _.
  repeat split; try assumption.
  exists made. repeat split; try assumption.
  - rewrite A, C0, <- app_assoc. reflexivity.
  - destruct D as [[D _] | (h & D1 & D2 & D3 & _ & D4 & _)].
    + left. congruence.
    + right. exists h. auto.
Qed.

(** *** The parsed manifest *)

Lemma hlsEmit_delivered (p : t) (h : Hls.Instance) (e : Hls.Events) :
  hlsRef p = Some h -> Hls.delivers h e = true ->
  hlsEmit e p = match e with
                | Hls.MANIFEST_PARSED data => onManifestParsed data p
                | Hls.ERROR data => onHlsError data p
                end.
Proof. intros Hh Hd. unfold hlsEmit. rewrite Hh, Hd. reflexivity. Qed.

(** A dead client, or none, delivers nothing. *)
Lemma hlsEmit_dropped (p : t) (e : Hls.Events) :
  (forall h, hlsRef p = Some h -> Hls.destroyed h = true) ->
  hlsEmit e p = p.
Proof.
  intros H. unfold hlsEmit, Hls.delivers.
  destruct (hlsRef p) as [h|]; [|reflexivity].
  rewrite (H h eq_refl). reflexivity.
Qed.

Lemma onManifestParsed_cells (data : Hls.ManifestParsedData) (p : t) :
  let p' := onManifestParsed data p in
  qualities p'
  = JsArray.sort byHeightDesc (JsArray.map toQualityLevel (Hls.levels data))
  /\ currentQualityIndex p' = currentQualityIndex p
  /\ isBuffering p' = false
  /\ isLive p' = existsb reportsLive (Hls.levels data)
  /\ hlsRef p' = hlsRef p
  /\ nextHls p' = nextHls p
  /\ error p' = error p.
Proof.
  handlers. destruct (videoRef p) eqn:Hv; refs; repeat split.
Qed.

Lemma weaken_sorted (A : Type) (R R' : A -> A -> Prop) (l : list A) :
  (forall x y, R x y -> R' x y) ->
  StronglySorted R l -> StronglySorted R' l.
Proof.
  intros H. induction 1 as [|x l Hs IH Hx]; constructor; [exact IH|].
  eapply Forall_impl; [|exact Hx]. intros y. apply H.
Qed.

(** [b.height - a.height] is a consistent comparator on integers, so the
    sorted list runs from the tallest rendition down. *)
Lemma sort_byHeightDesc (l : list QualityLevel) :
  StronglySorted Spec.taller (JsArray.sort byHeightDesc l).
Proof.
  apply weaken_sorted with (R := fun x y => (byHeightDesc x y <= 0)%Z).
  - unfold byHeightDesc, Spec.taller. intros x y. lia.
  - apply JsArrayFacts.sort_sorted; unfold byHeightDesc; intros; lia.
Qed.

(** The sort is stable: the entries of one height keep the order the
    manifest lists them in.  A stable sort by a consistent comparator has
    one result, so the engine's algorithm does not matter. *)
Lemma insert_byHeightDesc_filter (h : Z) (x : QualityLevel)
      (l : list QualityLevel) :
  filter (fun q => (height q =? h)%Z) (JsArray.insert byHeightDesc x l)
  = filter (fun q => (height q =? h)%Z) (x :: l).
Proof.
  induction l as [|y l IH]; [reflexivity|].
  cbn [JsArray.insert]. unfold byHeightDesc at 1.
  destruct (Z.leb_spec (height y - height x) 0) as [L|L]; [reflexivity|].
  cbn [filter] in *. rewrite IH.
  destruct (Z.eqb_spec (height x) h) as [Ex|Ex],
           (Z.eqb_spec (height y) h) as [Ey|Ey]; try reflexivity.
  lia.
Qed.

Lemma sort_byHeightDesc_stable (h : Z) (l : list QualityLevel) :
  filter (fun q => (height q =? h)%Z) (JsArray.sort byHeightDesc l)
  = filter (fun q => (height q =? h)%Z) l.
Proof.
  induction l as [|x l IH]; [reflexivity|].
  cbn [JsArray.sort fold_right].
  change (fold_right (JsArray.insert byHeightDesc) [] l)
    with (JsArray.sort byHeightDesc l).
  rewrite insert_byHeightDesc_filter. cbn [filter]. rewrite IH. reflexivity.
Qed.

Lemma getResolutionLabel_tiers (h : Z) :
  ((2160 <= h)%Z -> getResolutionLabel h = lit "4K")
  /\ ((1440 <= h < 2160)%Z -> getResolutionLabel h = lit "2K")
  /\ ((1080 <= h < 1440)%Z -> getResolutionLabel h = lit "FHD")
  /\ ((720 <= h < 1080)%Z -> getResolutionLabel h = lit "HD")
  /\ ((h < 720)%Z -> getResolutionLabel h = lit "SD").
Proof.
  unfold getResolutionLabel.
  repeat split; intros H;
    repeat match goal with
           | |- context [(?a >=? ?b)%Z] =>
               let E := fresh "E" in
               destruct (Z.geb_spec a b) as [E|E]; try lia
           end; reflexivity.
Qed.

(** Every entry of the sorted list was built from a rendition of the
    manifest, at the position its [index] names. *)
Lemma sorted_entry_origin (levels : list Hls.Level) (q : QualityLevel) :
  In q (JsArray.sort byHeightDesc (JsArray.map toQualityLevel levels)) ->
  exists k level,
    nth_error levels k = Some level /\ q = toQualityLevel level k.
Proof.
  intros H. apply JsArrayFacts.sort_In in H.
  exact (JsArrayFacts.map_In _ _ _ H).
Qed.

Lemma mapFrom_index (levels : list Hls.Level) (i : nat) :
  List.map index (JsArray.mapFrom toQualityLevel i levels)
  = List.map Z.of_nat (List.seq i (List.length levels)).
Proof.
  revert i. induction levels as [|x l IH]; intros i; simpl; [reflexivity|].
  rewrite IH. reflexivity.
Qed.

Lemma changeQuality_held (index : Z) (p : t) (h : Hls.Instance) :
  hlsRef p = Some h ->
  let p' := changeQuality index p in
  hlsRef p' = Some (Hls.setCurrentLevel index h)
  /\ calls p' = calls p ++ [HlsSetCurrentLevel (Hls.id h) index]
  /\ videoRef p' = videoRef p
  /\ currentQualityIndex p' = index
  /\ showSettings p' = false.
Proof. intros Hh. handlers. refs. repeat split. Qed.

(** C10.  The entries of the displayed quality list are the entries built
    from the manifest, rearranged: their [index] fields are the positions
    0 .. N-1 of the manifest's renditions, each still attached to the height
    and bitrate of the rendition at that position.  The menu button shown
    at a display position calls [changeQuality] with the entry's [index],
    and that sets the client's current level to this index, not to the
    display position. *)
Theorem quality_index_is_manifest_position (p : t) (h : Hls.Instance)
        (data : Hls.ManifestParsedData) :
  hlsRef p = Some h ->
  Hls.delivers h (Hls.MANIFEST_PARSED data) = true ->
  let p' := hlsEmit (Hls.MANIFEST_PARSED data) p in
  Permutation (JsArray.map toQualityLevel (Hls.levels data)) (qualities p')
  /\ Permutation (List.map Z.of_nat (List.seq 0 (List.length (Hls.levels data))))
                 (List.map index (qualities p'))
  /\ forall pos q,
       nth_error (qualities p') pos = Some q ->
       (exists k level,
           index q = Z.of_nat k
           /\ nth_error (Hls.levels data) k = Some level
           /\ height q = Hls.height level
           /\ bitrate q = Hls.bitrate level)
       /\ option_map onClick (nth_error (menuEntries p') (S pos))
          = Some (ChangeQuality (index q))
       /\ calls (perform (ChangeQuality (index q)) p')
          = calls p' ++ [HlsSetCurrentLevel (Hls.id h) (index q)]
       /\ hlsRef (perform (ChangeQuality (index q)) p')
          = Some (Hls.setCurrentLevel (index q) h).
Proof.
  intros Hh Hd. cbv zeta.
  rewrite (@hlsEmit_delivered _ _ (Hls.MANIFEST_PARSED data) Hh Hd).
  destruct (onManifestParsed_cells data p) as (Q & _ & _ & _ & R & _).
  cbv zeta in Q, R. rewrite Hh in R.
  split; [|split].
  - rewrite Q. apply JsArrayFacts.sort_perm.
  - rewrite Q. rewrite <- mapFrom_index.
    apply Permutation_map, JsArrayFacts.sort_perm.
  - intros pos q Hq. split; [|split].
    + assert (Hin : In q (qualities (onManifestParsed data p)))
        by (eapply nth_error_In; exact Hq).
      rewrite Q in Hin.
      destruct (sorted_entry_origin _ _ Hin) as (k & level & E & ->).
      exists k, level. cbn. auto.
    + unfold menuEntries. cbn [nth_error].
      rewrite nth_error_map, Hq. reflexivity.
    + destruct (changeQuality_held (index q) _ R) as (A & B & _).
      cbn [perform]. auto.
Qed.

(** *** Errors of the client *)

Lemma onHls_same (c : nat -> Call) (p : t) (h : Hls.Instance) :
  hlsRef p = Some h -> onHls c (fun h => h) p = log (c (Hls.id h)) p.
Proof.
  intros Hh. unfold onHls. rewrite Hh. destruct p. cbn in *. subst.
  reflexivity.
Qed.

Lemma STREAM_ERROR_not_empty : STREAM_ERROR <> [].
Proof. discriminate. Qed.

(** C4.  An error of the live client held in [hlsRef]: a non-fatal one
    changes nothing and calls nothing; a fatal network error only calls
    [startLoad] on the client and a fatal media error only calls
    [recoverMediaError], neither touching the error message; any other
    fatal error destroys the client and sets the stream-connection message,
    which is not empty, so the error overlay is rendered with that message
    and the page reload as its only button, and nothing else changes: no
    [play] is called, and as the client is dead no later event of it (a
    parsed manifest, the adaptive path's autoplay) reaches the player. *)
Theorem hls_error_handling (p : t) (h : Hls.Instance) (data : Hls.ErrorData) :
  hlsRef p = Some h ->
  Hls.delivers h (Hls.ERROR data) = true ->
  let p' := hlsEmit (Hls.ERROR data) p in
  (Hls.fatal data = false -> p' = p)
  /\ (Hls.fatal data = true -> Hls.type data = Hls.NETWORK_ERROR ->
      p' = log (HlsStartLoad (Hls.id h)) p /\ error p' = error p)
  /\ (Hls.fatal data = true -> Hls.type data = Hls.MEDIA_ERROR ->
      p' = log (HlsRecoverMediaError (Hls.id h)) p /\ error p' = error p)
  /\ (Hls.fatal data = true ->
      Hls.type data <> Hls.NETWORK_ERROR ->
      Hls.type data <> Hls.MEDIA_ERROR ->
      p' = setError (Some STREAM_ERROR)
             (setHlsRef (Some (Hls.destroy h)) (log (HlsDestroy (Hls.id h)) p))
      /\ calls p' = calls p ++ [HlsDestroy (Hls.id h)]
      /\ error p' = Some STREAM_ERROR
      /\ STREAM_ERROR <> []
      /\ errorOverlay (render p')
         = Some (mkErrorOverlay STREAM_ERROR [ReloadPage])
      /\ loadingOverlay (render p') = false
      /\ forall e, hlsEmit e p' = p').
Proof.
  intros Hh Hd. cbv zeta.
  rewrite (@hlsEmit_delivered _ _ (Hls.ERROR data) Hh Hd).
  unfold onHlsError. split; [|split; [|split]].
  - intros ->. reflexivity.
  - intros -> ->. rewrite (onHls_same _ _ Hh). split; reflexivity.
  - intros -> ->. rewrite (onHls_same _ _ Hh). split; reflexivity.
  - intros -> Hn Hm.
    assert (E : match Hls.type data with
                | Hls.NETWORK_ERROR => onHls HlsStartLoad (fun h => h)
                | Hls.MEDIA_ERROR => onHls HlsRecoverMediaError (fun h => h)
                | _ => onHls HlsDestroy Hls.destroy ;; setError (Some STREAM_ERROR)
                end p
                = setError (Some STREAM_ERROR)
                    (setHlsRef (Some (Hls.destroy h))
                       (log (HlsDestroy (Hls.id h)) p))).
    { destruct (Hls.type data); try contradiction;
        unfold seq, onHls; rewrite Hh; reflexivity. }
    rewrite E. split; [reflexivity|]. split; [reflexivity|].
    split; [reflexivity|]. split; [exact STREAM_ERROR_not_empty|].
    split; [reflexivity|]. split.
    + unfold render, errorShown. cbn. apply andb_false_r.
    + intros e. apply hlsEmit_dropped. cbn.
      intros h' H. injection H as <-. reflexivity.
Qed.

(** *** Volume *)

(** A number above zero is not zero ([===] on IEEE 754 doubles). *)
Lemma positive_not_zero (x : float) :
  (0 <? x)%float = true -> (x =? 0)%float = false.
Proof.
  rewrite FloatAxioms.ltb_spec, FloatAxioms.eqb_spec.
  change (Prim2SF 0) with (S754_zero false).
  destruct (Prim2SF x) as [s|s| |s m e]; cbn; try discriminate;
    destruct s; cbn; try discriminate; reflexivity.
Qed.

Lemma handleVolumeChange_mounted (val : float) (p : t) (v : Video.Element) :
  videoRef p = Some v ->
  let p' := handleVolumeChange val p in
  volume p' = val
  /\ videoRef p' = Some (Video.setMuted (val =? 0)%float (Video.setVolume val v))
  /\ isMuted p' = (val =? 0)%float
  /\ calls p' = calls p ++ [VideoSetVolume val; VideoSetMuted (val =? 0)%float].
Proof.
  intros Hv. handlers. refs. repeat split.
  rewrite <- app_assoc. reflexivity.
Qed.

(** C8.  A change of the volume control to [val], with the element
    mounted: the displayed volume and the element's volume are [val]; the
    element's muted attribute and the displayed muted flag are both the test
    [val === 0], so the flag is set exactly when [val] is zero, whatever it
    was before: zero forces it on, a value above zero forces it off. *)
Theorem handleVolumeChange_spec (val : float) (p : t) (v : Video.Element) :
  videoRef p = Some v ->
  let p' := handleVolumeChange val p in
  volume p' = val
  /\ (exists v', videoRef p' = Some v'
                 /\ Video.volume v' = val
                 /\ Video.muted v' = (val =? 0)%float)
  /\ (isMuted p' = true <-> (val =? 0)%float = true)
  /\ (val = 0%float -> isMuted p' = true)
  /\ ((0 <? val)%float = true -> isMuted p' = false).
Proof.
  intros Hv. cbv zeta.
  destruct (handleVolumeChange_mounted val p Hv) as (A & B & C & _).
  cbv zeta in A, B, C.
  split; [exact A|]. split; [|split; [|split]].
  - eexists. split; [exact B|]. split; reflexivity.
  - rewrite C. tauto.
  - intros ->. rewrite C. reflexivity.
  - intros H. rewrite C. apply positive_not_zero. exact H.
Qed.

(** *** Live streams *)

Lemma fold_skip (e : VideoEvent) (ls : list Video.Listener) (p : t) :
  (forall l, runListener e l = skip) ->
  fold_left (fun q l => runListener e l q) ls p = p.
Proof.
  intros H. induction ls as [|l ls IH]; simpl; [reflexivity|].
  rewrite H. exact IH.
Qed.

Lemma videoEmit_timeupdate (time dur : float) (p : t) (v : Video.Element) :
  videoRef p = Some v ->
  videoEmit (ev_timeupdate time dur) p
  = onTimeUpdate (setVideoRef (Some (Video.report time dur v)) p).
Proof.
  intros Hv. unfold videoEmit. rewrite Hv.
  apply fold_skip. intros l. reflexivity.
Qed.

Lemma render_live (p : t) :
  isLive p = true ->
  progress (render p) = None
  /\ liveBadge (render p) = true
  /\ timeText (render p) = false.
Proof. intros H. unfold render. cbn. rewrite H. auto. Qed.

(** C9.  A time update on which the mounted element reports the duration
    [Infinity] marks the stream live; and in any state with the live flag
    set, the progress control is not rendered and the live badge is (in
    place of the time text). *)
Theorem unbounded_duration_is_live (p : t) (v : Video.Element) (time : float) :
  videoRef p = Some v ->
  let p' := videoEmit (ev_timeupdate time infinity) p in
  isLive p' = true
  /\ forall q, isLive q = true ->
               progress (render q) = None
               /\ liveBadge (render q) = true
               /\ timeText (render q) = false.
Proof.
  intros Hv. cbv zeta. split.
  - rewrite (videoEmit_timeupdate time infinity p Hv). reflexivity.
  - exact render_live.
Qed.

(** *** Rejected autoplay *)

Lemma onPlayRejected_cells (s : PlaySite) (p : t) :
  let p' := onPlayRejected s p in
  isMuted p' = true
  /\ error p' = error p
  /\ isPlaying p' = match s with
                    | inManifestParsed => false
                    | inLoadedMetadata | inLoadedData => isPlaying p
                    end.
Proof. destruct s; repeat split. Qed.

(** *** Invariants of the mounted component *)

Lemma keeps_refl (p : t) : Spec.keeps p p.
Proof. unfold Spec.keeps. repeat split; auto. Qed.

Lemma keeps_trans (p q r : t) :
  Spec.keeps p q -> Spec.keeps q r -> Spec.keeps p r.
Proof.
  unfold Spec.keeps.
  intros (A & B & S & C & D & E) (A' & B' & S' & C' & D' & E').
  repeat split; try congruence; auto.
Qed.

Lemma keeps_consistent (p q : t) :
  Spec.consistent p -> Spec.keeps p q -> Spec.consistent q.
Proof.
  unfold Spec.consistent, Spec.keeps.
  intros (V & Q & D & I) (A & B & _ & C & V' & E).
  rewrite A, B, C. repeat split; eauto.
Qed.

(** Closes a [keeps] goal for a handler made of setters and calls on the
    element. *)
Ltac keeps_by_cases p :=
  unfold Spec.keeps, errorShown; handlers;
  destruct (videoRef p) as [?v|] eqn:?Hv;
  repeat (cbn; match goal with
               | H : videoRef _ = _ |- context [videoRef _] => rewrite H
               end);
  cbn;
  repeat match goal with
         | |- context [if ?b then _ else _] => destruct b; cbn
         end;
  repeat split; auto; try discriminate;
  try (intros [? ?]; first [discriminate | eauto]);
  try (intros; eexists; reflexivity).

Lemma keeps_mirror (e : VideoEvent) (p : t) : Spec.keeps p (mirror e p).
Proof. destruct e; cbn [mirror]; keeps_by_cases p. Qed.

Lemma keeps_runListener (e : VideoEvent) (l : Video.Listener) (p : t) :
  Spec.keeps p (runListener e l p).
Proof. destruct e, l; cbn [runListener]; keeps_by_cases p. Qed.

Lemma keeps_fold (e : VideoEvent) (ls : list Video.Listener) (p : t) :
  Spec.keeps p (fold_left (fun q l => runListener e l q) ls p).
Proof.
  revert p. induction ls as [|l ls IH]; intros p; simpl.
  - apply keeps_refl.
  - eapply keeps_trans; [apply keeps_runListener | apply IH].
Qed.

Lemma keeps_videoEmit (e : VideoEvent) (p : t) : Spec.keeps p (videoEmit e p).
Proof.
  unfold videoEmit. destruct (videoRef p) as [v|] eqn:Hv; [|apply keeps_refl].
  eapply keeps_trans; [|apply keeps_fold].
  eapply keeps_trans; [|apply keeps_mirror].
  unfold Spec.keeps, errorShown. cbn. repeat split; eauto.
Qed.

Lemma keeps_onPlayRejected (s : PlaySite) (p : t) :
  Spec.keeps p (onPlayRejected s p).
Proof. destruct s; cbn [onPlayRejected]; keeps_by_cases p. Qed.

Lemma keeps_transport (p : t) (val x : float) :
  Spec.keeps p (togglePlay p)
  /\ Spec.keeps p (toggleMute p)
  /\ Spec.keeps p (toggleSettings p)
  /\ Spec.keeps p (closeSettings p)
  /\ Spec.keeps p (handleVolumeChange val p)
  /\ Spec.keeps p (seekTo x p).
Proof. repeat split; keeps_by_cases p. Qed.

Lemma consistent_changeSrc (P : Platform) (src : JsString.t) (p : t) :
  (exists v, videoRef p = Some v) -> Spec.consistent (changeSrc P src p).
Proof.
  intros [v Hv].
  destruct (changeSrc_resets P src p Hv) as (p0 & E & V0 & H0 & N0 & _ & S0).
  destruct (loadVideo_frame P src p0 V0) as (made & _ & _ & _ & D & V & F).
  cbv zeta in D, V, F. rewrite <- E in D, V, F.
  assert (Q : qualities (changeSrc P src p) = []).
  { destruct F as [F|F]; rewrite S0 in F || idtac; unfold cells in *;
      cbn in F; congruence. }
  unfold Spec.consistent. repeat split.
  - exact V.
  - intros _. exact Q.
  - intros h Hh Hd.
    destruct D as [[D _] | (h' & D1 & _ & D3 & _)]; congruence.
  - intros h Hh.
    destruct D as [[D _] | (h' & D1 & D2 & _ & _ & _ & D6)]; [congruence|].
    assert (h = h') by congruence. subst h'. lia.
Qed.

Lemma mount_as_changeSrc (P : Platform) (src : JsString.t) (v : Video.Element) :
  mount P src v = changeSrc P src (initial v).
Proof. reflexivity. Qed.

Lemma keeps_log (c : Call) (p : t) : Spec.keeps p (log c p).
Proof. unfold Spec.keeps, errorShown. cbn. repeat split; auto. Qed.

Lemma consistent_fatal (p : t) (h : Hls.Instance) :
  Spec.consistent p -> hlsRef p = Some h ->
  Spec.consistent
    ((onHls HlsDestroy Hls.destroy ;; setError (Some STREAM_ERROR)) p).
Proof.
  intros ([v Hv] & Q & D & I) Hh. handlers. refs.
  unfold Spec.consistent, errorShown. cbn. rewrite Hv.
  repeat split.
  - eauto.
  - discriminate.
  - intros h' E. injection E as <-. exact (I _ Hh).
Qed.

Lemma consistent_hlsEmit (e : Hls.Events) (p : t) :
  Spec.consistent p -> Spec.consistent (hlsEmit e p).
Proof.
  intros C. unfold hlsEmit.
  destruct (hlsRef p) as [h|] eqn:Hh; [|exact C].
  destruct (Hls.delivers h e) eqn:Hd; [|exact C].
  destruct e as [data | data].
  - assert (Alive : Hls.destroyed h = false).
    { unfold Hls.delivers in Hd. destruct (Hls.destroyed h); [discriminate|].
      reflexivity. }
    destruct C as ([v Hv] & Q & D & I).
    destruct (onManifestParsed_cells data p) as (_ & _ & _ & _ & R & N & _).
    cbv zeta in R, N. unfold Spec.consistent. rewrite R, N, Hh.
    repeat split.
    + handlers. refs. eauto.
    + discriminate.
    + intros h' E. injection E as <-. congruence.
    + intros h' E. injection E as <-. exact (I _ Hh).
  - unfold onHlsError. destruct (Hls.fatal data); [|exact C].
    destruct (Hls.type data);
      try (apply consistent_fatal with (h := h); assumption);
      rewrite (onHls_same _ _ Hh);
      exact (keeps_consistent C (keeps_log _ p)).
Qed.

Lemma consistent_changeQuality (index : Z) (p : t) :
  Spec.consistent p -> Spec.consistent (changeQuality index p).
Proof.
  intros ([v Hv] & Q & D & I). handlers.
  destruct (hlsRef p) as [h|] eqn:Hh; refs;
    unfold Spec.consistent, errorShown in *; cbn; rewrite ?Hv, ?Hh;
    repeat split; eauto; try discriminate.
  - intros h' E. injection E as <-. cbn. apply D. reflexivity.
  - intros h' E. injection E as <-. cbn. apply I. reflexivity.
Qed.

Lemma consistent_step (P : Platform) (e : Event) (p : t) :
  Spec.consistent p -> Spec.consistent (step P e p).
Proof.
  intros C. destruct e as [src|e|e|s|a|val|x|]; cbn [step].
  - apply consistent_changeSrc. exact (proj1 C).
  - apply consistent_hlsEmit. exact C.
  - exact (keeps_consistent C (keeps_videoEmit e p)).
  - exact (keeps_consistent C (keeps_onPlayRejected s p)).
  - destruct a; cbn [perform].
    + exact C.
    + exact (keeps_consistent C (proj1 (keeps_transport p 0 0))).
    + exact (keeps_consistent C (proj1 (proj2 (keeps_transport p 0 0)))).
    + exact (keeps_consistent C
               (proj1 (proj2 (proj2 (keeps_transport p 0 0))))).
    + apply consistent_changeQuality. exact C.
  - apply (keeps_consistent C). apply (keeps_transport p val 0).
  - apply (keeps_consistent C). apply (keeps_transport p 0 x).
  - apply (keeps_consistent C). apply (keeps_transport p 0 0).
Qed.

(** Every state the mounted component reaches is consistent. *)
Lemma reachable_consistent (P : Platform) (p : t) :
  Reachable P p -> Spec.consistent p.
Proof.
  induction 1 as [src v | e p _ IH].
  - rewrite mount_as_changeSrc. apply consistent_changeSrc. cbn. eauto.
  - apply consistent_step. exact IH.
Qed.

(** *** The first parsed manifest of a session *)

Lemma awaiting_changeSrc (P : Platform) (src : JsString.t) (p : t)
      (v : Video.Element) :
  videoRef p = Some v -> isHlsSource src = true -> isSupported P = true ->
  Spec.awaitingManifest (changeSrc P src p).
Proof.
  intros Hv Hs Hp.
  destruct (changeSrc_resets P src p Hv) as (p0 & E & _ & _ & _ & _ & S0).
  destruct (loadVideo_adaptive P src p0 Hs Hp) as (A & _ & _ & _ & F).
  rewrite <- E in A, F. split.
  - eexists. split; [exact A|]. split; reflexivity.
  - rewrite S0 in F. unfold cells in F. congruence.
Qed.

Lemma awaiting_keeps (p q : t) :
  Spec.awaitingManifest p -> Spec.keeps p q -> Spec.awaitingManifest q.
Proof.
  unfold Spec.awaitingManifest, Spec.keeps.
  intros (H & I) (A & _ & S & _). rewrite A, S. auto.
Qed.

Lemma awaiting_step (P : Platform) (e : Event) (p : t) :
  Spec.awaitingManifest p -> Spec.quiet e ->
  Spec.awaitingManifest (step P e p).
Proof.
  intros W Q. destruct e as [src|e|e|s|a|val|x|]; cbn [step].
  - contradiction.
  - destruct e as [data|data]; [contradiction|].
    destruct W as ((h & Hh & Ha & Hs) & I).
    assert (Hd : Hls.delivers h (Hls.ERROR data) = true)
      by (unfold Hls.delivers; rewrite Ha, Hs; reflexivity).
    rewrite (@hlsEmit_delivered p h (Hls.ERROR data) Hh Hd).
    assert (W : Spec.awaitingManifest p) by (split; eauto).
    unfold onHlsError. cbn in Q.
    destruct (Hls.fatal data); [|exact W].
    destruct Q as [Q | [Q | Q]]; [discriminate | |];
      rewrite Q, (onHls_same _ _ Hh);
      exact (awaiting_keeps W (keeps_log _ p)).
  - exact (awaiting_keeps W (keeps_videoEmit e p)).
  - exact (awaiting_keeps W (keeps_onPlayRejected s p)).
  - destruct a; cbn [perform].
    + exact W.
    + exact (awaiting_keeps W (proj1 (keeps_transport p 0 0))).
    + exact (awaiting_keeps W (proj1 (proj2 (keeps_transport p 0 0)))).
    + exact (awaiting_keeps W
               (proj1 (proj2 (proj2 (keeps_transport p 0 0))))).
    + contradiction.
  - apply (awaiting_keeps W). apply (keeps_transport p val 0).
  - apply (awaiting_keeps W). apply (keeps_transport p 0 x).
  - apply (awaiting_keeps W). apply (keeps_transport p 0 0).
Qed.

Lemma awaiting_run (P : Platform) (es : list Event) (p : t) :
  Spec.awaitingManifest p -> Forall Spec.quiet es ->
  Spec.awaitingManifest (run P es p).
Proof.
  intros W Q. revert p W. induction Q as [|e es Qe _ IH]; intros p W.
  - exact W.
  - cbn [run fold_left]. apply IH. apply awaiting_step; assumption.
Qed.

(** C2.  An address that looks like a manifest is handed to a player whose
    platform supports hls.js.  Whatever quiet events follow (events of the
    element, rejected plays, clicks and inputs outside the quality menu,
    errors the client recovers from), the manifest-parsed event with N
    renditions then leaves a quality list of exactly N entries, in
    descending order of height, with the selection the automatic sentinel
    -1; and every entry carries the tier label of its own height: 4K from
    2160 up, 2K from 1440, FHD from 1080, HD from 720, SD below. *)
Theorem manifest_parsed_quality_list (P : Platform) (src : JsString.t)
        (p : t) (v : Video.Element) (es : list Event)
        (data : Hls.ManifestParsedData) :
  videoRef p = Some v ->
  isHlsSource src = true ->
  isSupported P = true ->
  Forall Spec.quiet es ->
  let p' := hlsEmit (Hls.MANIFEST_PARSED data)
              (run P es (changeSrc P src p)) in
  List.length (qualities p') = List.length (Hls.levels data)
  /\ StronglySorted Spec.taller (qualities p')
  /\ currentQualityIndex p' = (-1)%Z
  /\ Forall (fun q =>
               ((2160 <= height q)%Z -> label q = lit "4K")
               /\ ((1440 <= height q < 2160)%Z -> label q = lit "2K")
               /\ ((1080 <= height q < 1440)%Z -> label q = lit "FHD")
               /\ ((720 <= height q < 1080)%Z -> label q = lit "HD")
               /\ ((height q < 720)%Z -> label q = lit "SD"))
            (qualities p').
Proof.
  intros Hv Hs Hp Hq. cbv zeta.
  pose proof (awaiting_run P (awaiting_changeSrc P src p Hv Hs Hp) Hq) as W.
  destruct W as ((h & Hh & Ha & Hsub) & I).
  assert (Hd : Hls.delivers h (Hls.MANIFEST_PARSED data) = true)
    by (unfold Hls.delivers; rewrite Ha, Hsub; reflexivity).
  rewrite (@hlsEmit_delivered _ h (Hls.MANIFEST_PARSED data) Hh Hd).
  destruct (onManifestParsed_cells data (run P es (changeSrc P src p)))
    as (Q & S & _). cbv zeta in Q, S.
  rewrite Q, S. repeat split.
  - rewrite JsArrayFacts.sort_length. apply JsArrayFacts.map_length.
  - apply sort_byHeightDesc.
  - exact I.
  - apply Forall_forall. intros q Hin.
    destruct (sorted_entry_origin _ _ Hin) as (k & level & _ & ->).
    cbn [label height toQualityLevel].
    apply getResolutionLabel_tiers.
Qed.

(** *** Quality selection *)





(** *** Rejected autoplay, on a sample run *)

(** C6 (the code departs from it).  On the direct-file path the [catch]
    of the rejected [play] sets the muted flag and nothing else: in the
    sample run, where a file was playing when the next address came in, the
    playing flag is still set after the rejection.  The [catch] of the
    hls.js path, in the same state, clears it. *)
Theorem rejected_autoplay_on_file_path :
  let before := Player.run Examples.neither
                  [FromVideo ev_play; SrcChanged Examples.otherFileUrl;
                   FromVideo ev_loadeddata]
                  (mount Examples.neither Examples.fileUrl Video.fresh) in
  let after := Player.run Examples.neither Examples.secondFile
                 (mount Examples.neither Examples.fileUrl Video.fresh) in
  after = onPlayRejected inLoadedData before
  /\ isPlaying after = true
  /\ isMuted after = true
  /\ error after = None
  /\ isPlaying (onPlayRejected inLoadedMetadata before) = true
  /\ isPlaying (onPlayRejected inManifestParsed before) = false.
Proof.
  cbv zeta.
  repeat match goal with |- _ /\ _ => apply conj end;
    vm_compute; reflexivity.
Qed.

(** *** The theorems at the sample inputs *)

(** Closes a goal with a computed instance of a theorem. *)
Ltac computed H := vm_compute in H; vm_compute; exact H.

(** One manifest address on the three sample platforms: one strategy
    each. *)
Lemma loadVideo_strategy_witness :
  calls (loadVideo Examples.withHlsJs Examples.manifestUrl (initial Video.fresh))
  = [HlsNew 0 HLS_CONFIG; HlsLoadSource 0 Examples.manifestUrl;
     HlsAttachMedia 0; HlsOn 0 Hls.ON_MANIFEST_PARSED; HlsOn 0 Hls.ON_ERROR]
  /\ calls (loadVideo Examples.nativeOnly Examples.manifestUrl
              (initial Video.fresh))
     = [VideoSetSrc Examples.manifestUrl;
        VideoAddEventListener Video.on_loadedmetadata]
  /\ calls (loadVideo Examples.neither Examples.manifestUrl
              (initial Video.fresh))
     = [VideoSetSrc Examples.manifestUrl; VideoLoad;
        VideoAddEventListener Video.on_loadeddata;
        VideoAddEventListener Video.on_error].
Proof.
  pose proof (@loadVideo_strategy Examples.withHlsJs Examples.manifestUrl
                (initial Video.fresh) Video.fresh eq_refl) as A.
  pose proof (@loadVideo_strategy Examples.nativeOnly Examples.manifestUrl
                (initial Video.fresh) Video.fresh eq_refl) as B.
  pose proof (@loadVideo_strategy Examples.neither Examples.manifestUrl
                (initial Video.fresh) Video.fresh eq_refl) as C.
  vm_compute in A, B, C.
  destruct A as (_ & A & _), B as (_ & B & _), C as (_ & C & _).
  repeat apply conj; vm_compute; assumption.
Defined.

(** The six renditions of the sample manifest, parsed at once and parsed
    after a stall and a recovered network error. *)
Lemma manifest_parsed_quality_list_witness :
  List.length (qualities Examples.parsed) = 6
  /\ currentQualityIndex
       (hlsEmit (Hls.MANIFEST_PARSED Examples.ladder)
          (run Examples.withHlsJs Examples.meanwhile Examples.loading))
     = (-1)%Z.
Proof.
  assert (Hs : isHlsSource Examples.manifestUrl = true)
    by (vm_compute; reflexivity).
  assert (Hq : Forall Spec.quiet Examples.meanwhile)
    by (repeat constructor).
  destruct (@manifest_parsed_quality_list Examples.withHlsJs
              Examples.manifestUrl (initial Video.fresh) Video.fresh
              [] Examples.ladder eq_refl Hs eq_refl (Forall_nil _))
    as (A & _).
  destruct (@manifest_parsed_quality_list Examples.withHlsJs
              Examples.manifestUrl (initial Video.fresh) Video.fresh
              Examples.meanwhile Examples.ladder eq_refl Hs eq_refl Hq)
    as (_ & _ & C & _).
  split; [computed A | computed C].
Defined.

(** A file address is submitted to the session that shows six quality
    levels. *)
Lemma changeSrc_new_session_witness :
  qualities (changeSrc Examples.withHlsJs Examples.fileUrl Examples.parsed) = []
  /\ currentQualityIndex
       (changeSrc Examples.withHlsJs Examples.fileUrl Examples.parsed)
     = (-1)%Z
  /\ hlsRef (changeSrc Examples.withHlsJs Examples.fileUrl Examples.parsed)
     = None.
Proof.
  assert (Hv : videoRef Examples.parsed = Some Video.fresh)
    by (vm_compute; reflexivity).
  destruct (@changeSrc_new_session Examples.withHlsJs Examples.fileUrl
              Examples.parsed Video.fresh Hv) as (A & B & _).
  repeat apply conj; [exact A | exact B | vm_compute; reflexivity].
Defined.

(** A fatal error of the remaining kind in that session. *)
Lemma hls_error_handling_witness :
  error (hlsEmit (Hls.ERROR Examples.fatalOther) Examples.parsed)
  = Some STREAM_ERROR
  /\ calls (hlsEmit (Hls.ERROR Examples.fatalOther) Examples.parsed)
     = calls Examples.parsed ++ [HlsDestroy 0].
Proof.
  assert (Hh : hlsRef Examples.parsed = Some Examples.client)
    by (vm_compute; reflexivity).
  assert (Hd : Hls.delivers Examples.client (Hls.ERROR Examples.fatalOther)
               = true) by (vm_compute; reflexivity).
  destruct (@hls_error_handling Examples.parsed Examples.client
              Examples.fatalOther Hh Hd) as (_ & _ & _ & A).
  destruct A as (_ & B & C & _);
    [reflexivity | discriminate | discriminate |].
  split; [exact C | exact B].
Defined.


(** The control is moved to one half while muted, and down to zero. *)
Lemma handleVolumeChange_spec_witness :
  isMuted (handleVolumeChange 0.5 (setIsMuted true Examples.onFile)) = false
  /\ isMuted (handleVolumeChange 0 Examples.onFile) = true.
Proof.
  assert (Hv : forall b, videoRef (setIsMuted b Examples.onFile)
                         = Some (Video.addEventListener Video.on_error
                                   (Video.addEventListener Video.on_loadeddata
                                      (Video.setSrc Examples.fileUrl
                                         Video.fresh))))
    by (intros b; vm_compute; reflexivity).
  split.
  - refine (proj2 (proj2 (proj2 (proj2
      (@handleVolumeChange_spec 0.5 _ _ (Hv true))))) _).
    vm_compute. reflexivity.
  - assert (Hv0 : videoRef Examples.onFile
                  = Some (Video.addEventListener Video.on_error
                            (Video.addEventListener Video.on_loadeddata
                               (Video.setSrc Examples.fileUrl Video.fresh))))
      by (vm_compute; reflexivity).
    exact (proj1 (proj2 (proj2 (proj2
      (@handleVolumeChange_spec 0 _ _ Hv0)))) eq_refl).
Defined.

(** A time update with an unbounded duration on a file session. *)
Lemma unbounded_duration_is_live_witness :
  isLive (videoEmit (ev_timeupdate 12.5 infinity) Examples.onFile) = true.
Proof.
  assert (Hv : videoRef Examples.onFile
               = Some (Video.addEventListener Video.on_error
                         (Video.addEventListener Video.on_loadeddata
                            (Video.setSrc Examples.fileUrl Video.fresh))))
    by (vm_compute; reflexivity).
  exact (proj1 (@unbounded_duration_is_live Examples.onFile _ 12.5 Hv)).
Defined.

(** The entry shown first is the fourth rendition of the manifest. *)
Lemma quality_index_is_manifest_position_witness :
  calls (perform (ChangeQuality 3) Examples.parsed)
  = calls Examples.parsed ++ [HlsSetCurrentLevel 0 3].
Proof.
  assert (Hh : hlsRef Examples.loading = Some Examples.client)
    by (vm_compute; reflexivity).
  assert (Hd : Hls.delivers Examples.client
                 (Hls.MANIFEST_PARSED Examples.ladder) = true)
    by (vm_compute; reflexivity).
  assert (Hq : nth_error (qualities Examples.parsed) 0 = Some Examples.tallest)
    by (vm_compute; reflexivity).
  destruct (@quality_index_is_manifest_position Examples.loading
              Examples.client Examples.ladder Hh Hd) as (_ & _ & A).
  destruct (A 0 Examples.tallest Hq) as (_ & _ & B & _).
  exact B.
Defined.

End PlayerFacts.

(* ================================================================== *)
(** ** Sessions of the player *)
(* ================================================================== *)

Module SessionFacts.
Import JsString Player Observe PlayerFacts.

Arguments liveClients : simpl never.

Lemma liveClients_app (a b : list Call) :
  liveClients (a ++ b) = fold_left track b (liveClients a).
Proof. unfold liveClients. apply fold_left_app. Qed.

Lemma calm_refl (p : t) : calm p p.
Proof. unfold calm. repeat split; auto. Qed.

Lemma calm_trans (p q r : t) : calm p q -> calm q r -> calm p r.
Proof.
  unfold calm.
  intros (A & B & C & D & E & F & G & H) (A' & B' & C' & D' & E' & F' & G' & H').
  repeat split; try congruence; auto.
  destruct E as [E|E], E' as [E'|E']; rewrite ?E', ?E; auto.
Qed.

(** Closes a [calm] goal for a handler made of setters and calls that
    neither make nor destroy a client. *)
Ltac calm_by_cases p :=
  unfold calm, held, listenersOf; handlers;
  destruct (videoRef p) as [?v|] eqn:?Hv;
  destruct (hlsRef p) as [?h|] eqn:?Hh;
  repeat (cbn; match goal with
               | H : videoRef _ = _ |- context [videoRef _] => rewrite H
               | H : hlsRef _ = _ |- context [hlsRef _] => rewrite H
               end);
  cbn;
  repeat match goal with
         | |- context [if ?b then _ else _] => destruct b eqn:?; cbn
         end;
  rewrite ?liveClients_app; cbn;
  repeat match goal with
         | H : videoRef _ = _ |- context [videoRef _] => rewrite H
         | H : hlsRef _ = _ |- context [hlsRef _] => rewrite H
         | H : Hls.destroyed _ = _ |- context [Hls.destroyed _] => rewrite H
         end;
  cbn;
  repeat split; auto; try discriminate;
  try (unfold liveClients; rewrite ?fold_left_app; reflexivity);
  try (intros [? ?]; first [discriminate | eauto]);
  try (intros; eexists; reflexivity).

Lemma calm_mirror (e : VideoEvent) (p : t) : calm p (mirror e p).
Proof. destruct e; cbn [mirror]; calm_by_cases p. Qed.

Lemma calm_runListener (e : VideoEvent) (l : Video.Listener) (p : t) :
  calm p (runListener e l p).
Proof. destruct e, l; cbn [runListener]; calm_by_cases p. Qed.

Lemma calm_fold (e : VideoEvent) (ls : list Video.Listener) (p : t) :
  calm p (fold_left (fun q l => runListener e l q) ls p).
Proof.
  revert p. induction ls as [|l ls IH]; intros p; simpl.
  - apply calm_refl.
  - eapply calm_trans; [apply calm_runListener | apply IH].
Qed.

Lemma calm_reading (e : VideoEvent) (p : t) (v : Video.Element) :
  videoRef p = Some v -> calm p (setVideoRef (Some (reading e v)) p).
Proof.
  intros Hv. unfold calm, held, listenersOf. cbn. rewrite Hv.
  repeat split; eauto. destruct e; reflexivity.
Qed.

Lemma calm_videoEmit (e : VideoEvent) (p : t) : calm p (videoEmit e p).
Proof.
  unfold videoEmit. destruct (videoRef p) as [v|] eqn:Hv; [|apply calm_refl].
  eapply calm_trans; [|apply calm_fold].
  eapply calm_trans; [|apply calm_mirror].
  apply calm_reading. exact Hv.
Qed.

Lemma calm_onPlayRejected (s : PlaySite) (p : t) : calm p (onPlayRejected s p).
Proof. destruct s; cbn [onPlayRejected]; calm_by_cases p. Qed.

Lemma calm_perform (a : Action) (p : t) : calm p (perform a p).
Proof. destruct a; cbn [perform]; calm_by_cases p. Qed.

Lemma calm_inputs (val x : float) (p : t) :
  calm p (handleVolumeChange val p)
  /\ calm p (seekTo x p)
  /\ calm p (closeSettings p).
Proof. repeat split; calm_by_cases p. Qed.

Lemma calm_log (c : Call) (p : t) :
  (forall i k, c <> HlsNew i k) -> (forall i, c <> HlsDestroy i) ->
  calm p (log c p).
Proof.
  intros Hn Hd. unfold calm, held, listenersOf, liveClients. cbn.
  rewrite fold_left_app. repeat split; auto.
  destruct c; cbn; try reflexivity.
  - exfalso. eapply Hn. reflexivity.
  - exfalso. eapply Hd. reflexivity.
Qed.

(** *** One client at a time *)

Lemma reachable_run (P : Platform) (es : list Event) (p : t) :
  Reachable P p -> Reachable P (run P es p).
Proof.
  revert p. induction es as [|e es IH]; intros p R; [exact R|].
  cbn [run fold_left]. apply IH. apply reach_step. exact R.
Qed.

Lemma live_after_teardown (p p0 : t) :
  liveClients (calls p) = held p ->
  calls p0 = calls p ++ match hlsRef p with
                        | Some h => [HlsDestroy (Hls.id h);
                                     HlsDestroy (Hls.id h)]
                        | None => []
                        end ->
  liveClients (calls p0) = [].
Proof.
  intros L E. rewrite E, liveClients_app, L. unfold held.
  destruct (hlsRef p) as [h|]; [|reflexivity].
  destruct (Hls.destroyed h); cbn; [reflexivity|].
  rewrite Nat.eqb_refl. reflexivity.
Qed.

Lemma live_changeSrc (P : Platform) (src : JsString.t) (p : t)
      (v : Video.Element) :
  videoRef p = Some v ->
  liveClients (calls p) = held p ->
  liveClients (calls (changeSrc P src p)) = held (changeSrc P src p).
Proof.
  intros Hv L.
  destruct (changeSrc_resets P src p Hv) as (p0 & E & V0 & H0 & _ & C0 & _).
  pose proof (live_after_teardown p p0 L C0) as L0.
  rewrite E. unfold held.
  destruct (isHlsSource src) eqn:Hs.
  - destruct (isSupported P) eqn:Hp.
    + destruct (loadVideo_adaptive P src p0 Hs Hp) as (A & B & _).
      rewrite A, B, liveClients_app, L0. reflexivity.
    + destruct (Video.truthy (canPlayType P MPEGURL)) eqn:Hc.
      * destruct (loadVideo_native P src p0 Hs Hp Hc V0) as (_ & B & C & _).
        rewrite C, H0, B, liveClients_app, L0. reflexivity.
      * assert (D : isHlsSource src
                    && (isSupported P || Video.truthy (canPlayType P MPEGURL))
                    = false) by (rewrite Hs, Hp, Hc; reflexivity).
        destruct (loadVideo_direct P src p0 D V0) as (_ & B & C & _).
        rewrite C, H0, B, liveClients_app, L0. reflexivity.
  - assert (D : isHlsSource src
                && (isSupported P || Video.truthy (canPlayType P MPEGURL))
                = false) by (rewrite Hs; reflexivity).
    destruct (loadVideo_direct P src p0 D V0) as (_ & B & C & _).
    rewrite C, H0, B, liveClients_app, L0. reflexivity.
Qed.

Lemma live_hlsEmit (e : Hls.Events) (p : t) :
  liveClients (calls p) = held p ->
  liveClients (calls (hlsEmit e p)) = held (hlsEmit e p).
Proof.
  intros L. unfold hlsEmit.
  destruct (hlsRef p) as [h|] eqn:Hh; [|exact L].
  destruct (Hls.delivers h e) eqn:Hd; [|exact L].
  assert (Alive : Hls.destroyed h = false).
  { unfold Hls.delivers in Hd. destruct (Hls.destroyed h); [discriminate|].
    reflexivity. }
  destruct e as [data|data].
  - unfold held in *. handlers.
    destruct (videoRef p) eqn:Hv; refs; rewrite ?liveClients_app, L; cbn;
      rewrite ?Hh; reflexivity.
  - unfold onHlsError. destruct (Hls.fatal data); [|exact L].
    destruct (Hls.type data);
      try (rewrite (onHls_same _ _ Hh);
           match goal with
           | |- context [log ?c p] =>
               destruct (@calm_log c p ltac:(intros; discriminate)
                           ltac:(intros; discriminate)) as (A & _ & B & _)
           end;
           rewrite A, B; exact L);
      (handlers; refs; unfold held in *; cbn;
       rewrite Hh, Alive in L; rewrite liveClients_app, L; cbn;
       rewrite Nat.eqb_refl; reflexivity).
Qed.

Lemma live_calm (p q : t) :
  liveClients (calls p) = held p -> calm p q ->
  liveClients (calls q) = held q.
Proof. intros L (A & _ & B & _). congruence. Qed.

Lemma calm_step (P : Platform) (e : Event) (p : t) :
  match e with
  | SrcChanged _ | FromHls _ => True
  | _ => calm p (step P e p)
  end.
Proof.
  destruct e as [src|e|e|s|a|val|x|]; cbn [step]; try exact I.
  - apply calm_videoEmit.
  - apply calm_onPlayRejected.
  - apply calm_perform.
  - apply (calm_inputs val 0 p).
  - apply (calm_inputs 0 x p).
  - apply (calm_inputs 0 0 p).
Qed.

Lemma live_reachable (P : Platform) (p : t) :
  Reachable P p -> liveClients (calls p) = held p.
Proof.
  induction 1 as [src v | e p R IH].
  - rewrite mount_as_changeSrc.
    apply live_changeSrc with (v := v); reflexivity.
  - pose proof (calm_step P e p) as K.
    destruct e as [src|e|e|s|a|val|x|];
      try exact (live_calm IH K); cbn [step].
    + destruct (reachable_consistent R) as ([v Hv] & _).
      apply live_changeSrc with (v := v); assumption.
    + apply live_hlsEmit. exact IH.
Qed.

(** X1.  At any moment of the mounted player at most one hls.js client
    has been made and not destroyed, and it is the one in [hlsRef]; when
    the component goes away, the cleanup of the effect leaves none. *)
Theorem one_live_client (P : Platform) (p : t) :
  Reachable P p ->
  liveClients (calls p) = held p
  /\ List.length (liveClients (calls p)) <= 1
  /\ liveClients (calls (cleanup p)) = [].
Proof.
  intros R. pose proof (live_reachable R) as L.
  split; [exact L|]. split.
  - rewrite L. unfold held.
    destruct (hlsRef p) as [h|]; [destruct (Hls.destroyed h)|]; cbn; lia.
  - unfold cleanup, onHls.
    destruct (hlsRef p) as [h|] eqn:Hh.
    + cbn. rewrite liveClients_app, L. unfold held. rewrite Hh.
      destruct (Hls.destroyed h); cbn; [reflexivity|].
      rewrite Nat.eqb_refl. reflexivity.
    + rewrite L. unfold held. rewrite Hh. reflexivity.
Qed.

(** *** Sessions without a client *)




(** *** Error messages *)






(** *** The live flag *)

Lemma isLive_hlsError (data : Hls.ErrorData) (p : t) :
  isLive (hlsEmit (Hls.ERROR data) p) = isLive p.
Proof.
  unfold hlsEmit. destruct (hlsRef p) as [h|] eqn:Hh; [|reflexivity].
  destruct (Hls.delivers h (Hls.ERROR data)); [|reflexivity].
  unfold onHlsError. destruct (Hls.fatal data); [|reflexivity].
  destruct (Hls.type data); handlers; refs; reflexivity.
Qed.

Lemma isLive_step (P : Platform) (e : Event) (p : t) :
  sameSession e -> isLive p = true -> isLive (step P e p) = true.
Proof.
  intros S L. pose proof (calm_step P e p) as K.
  destruct e as [src|e|e|s|a|val|x|];
    try (destruct K as (_ & _ & _ & _ & _ & K & _); auto).
  - contradiction.
  - destruct e as [data|data]; [contradiction|].
    cbn [step]. rewrite isLive_hlsError. exact L.
Qed.

(** X4.  Once the live flag is set it stays set for the rest of the
    session: only a new address or a parsed manifest can clear it.  So the
    progress control, once replaced by the live badge, does not come
    back. *)
Theorem live_flag_persists (P : Platform) (es : list Event) (p : t) :
  isLive p = true ->
  Forall sameSession es ->
  isLive (run P es p) = true
  /\ progress (render (run P es p)) = None
  /\ liveBadge (render (run P es p)) = true.
Proof.
  intros L Hs.
  assert (L' : isLive (run P es p) = true).
  { revert p L. induction Hs as [|e es He _ IH]; intros p L; [exact L|].
    cbn [run fold_left]. apply IH. apply isLive_step; assumption. }
  split; [exact L'|]. unfold render. cbn. rewrite L'. auto.
Qed.

(** *** Listeners that outlive their session *)

Lemma listeners_changeSrc (P : Platform) (src : JsString.t) (p : t)
      (v : Video.Element) :
  videoRef p = Some v ->
  exists v' more,
    videoRef (changeSrc P src p) = Some v'
    /\ Video.listeners v' = Video.listeners v ++ more
    /\ (direct P src -> more = [Video.on_loadeddata; Video.on_error]).
Proof.
  intros Hv.
  destruct (changeSrc_resets P src p Hv) as (p0 & E & V0 & _).
  rewrite E. unfold direct.
  destruct (isHlsSource src) eqn:Hs.
  - destruct (isSupported P) eqn:Hp.
    + destruct (loadVideo_adaptive P src p0 Hs Hp) as (_ & _ & C & _).
      exists v, []. rewrite C, V0, app_nil_r. repeat split. discriminate.
    + destruct (Video.truthy (canPlayType P MPEGURL)) eqn:Hc.
      * destruct (loadVideo_native P src p0 Hs Hp Hc V0) as (A & _).
        eexists. exists [Video.on_loadedmetadata].
        split; [exact A|]. split; [reflexivity | discriminate].
      * assert (D : isHlsSource src
                    && (isSupported P || Video.truthy (canPlayType P MPEGURL))
                    = false) by (rewrite Hs, Hp, Hc; reflexivity).
        destruct (loadVideo_direct P src p0 D V0) as (A & _).
        eexists. exists [Video.on_loadeddata; Video.on_error].
        split; [exact A|]. split; [|reflexivity].
        cbn. rewrite <- app_assoc. reflexivity.
  - assert (D : isHlsSource src
                && (isSupported P || Video.truthy (canPlayType P MPEGURL))
                = false) by (rewrite Hs; reflexivity).
    destruct (loadVideo_direct P src p0 D V0) as (A & _).
    eexists. exists [Video.on_loadeddata; Video.on_error].
    split; [exact A|]. split; [|reflexivity].
    cbn. rewrite <- app_assoc. reflexivity.
Qed.

Lemma listeners_hlsEmit (e : Hls.Events) (p : t) :
  listenersOf (hlsEmit e p) = listenersOf p.
Proof.
  unfold hlsEmit, listenersOf.
  destruct (hlsRef p) as [h|] eqn:Hh; [|reflexivity].
  destruct (Hls.delivers h e); [|reflexivity].
  destruct e as [data|data].
  - handlers. destruct (videoRef p) eqn:Hv; refs; rewrite ?Hv; reflexivity.
  - unfold onHlsError. destruct (Hls.fatal data); [|reflexivity].
    destruct (Hls.type data); handlers; refs; reflexivity.
Qed.

(** No step takes a listener off the element. *)
Lemma listeners_step (P : Platform) (e : Event) (p : t) :
  (exists v, videoRef p = Some v) ->
  exists more, listenersOf (step P e p) = listenersOf p ++ more.
Proof.
  intros [v Hv]. pose proof (calm_step P e p) as K.
  destruct e as [src|e|e|s|a|val|x|];
    try (destruct K as (_ & _ & _ & _ & _ & _ & _ & K); exists [];
         rewrite K, app_nil_r; reflexivity).
  - cbn [step].
    destruct (listeners_changeSrc P src p Hv) as (v' & more & A & B & _).
    exists more. unfold listenersOf. rewrite A, Hv. exact B.
  - cbn [step]. exists []. rewrite listeners_hlsEmit, app_nil_r. reflexivity.
Qed.




Lemma error_fold (b : bool) (ls : list Video.Listener) (p : t)
      (v : Video.Element) :
  videoRef p = Some v ->
  Video.error v = true ->
  In Video.on_error ls \/ error p = Some FILE_ERROR ->
  error (fold_left (fun q l => runListener (ev_error b) l q) ls p)
  = Some FILE_ERROR.
Proof.
  intros Hv He. revert p Hv.
  induction ls as [|l ls IH]; intros p Hv H; cbn [fold_left].
  - destruct H as [[]|H]. exact H.
  - destruct l; cbn [runListener].
    + apply IH; [exact Hv|]. destruct H as [[H|H]|H]; auto. discriminate.
    + apply IH; [exact Hv|]. destruct H as [[H|H]|H]; auto. discriminate.
    + apply IH.
      * unfold onVideoError. rewrite Hv, He. exact Hv.
      * right. unfold onVideoError. rewrite Hv, He. reflexivity.
Qed.

Lemma listener_mounted (l : Video.Listener) (p : t) :
  In l (listenersOf p) -> exists v, videoRef p = Some v.
Proof.
  unfold listenersOf. destruct (videoRef p) as [v|]; [eauto | contradiction].
Qed.

Lemma on_error_stays (P : Platform) (es : list Event) (p : t) :
  In Video.on_error (listenersOf p) ->
  In Video.on_error (listenersOf (run P es p)).
Proof.
  revert p. induction es as [|e es IH]; intros p Hin; [exact Hin|].
  cbn [run fold_left].
  destruct (@listeners_step P e p (listener_mounted _ _ Hin)) as (more & L).
  apply IH. rewrite L. apply in_or_app. auto.
Qed.

(** X6.  The [error] listener of a file session also outlives it: once an
    address was played as a plain file, a later [error] event of the element
    that comes with a media error sets the "cannot play the file" message,
    whatever was played since, a stream on hls.js included. *)
Theorem file_error_message_outlives_its_session (P : Platform)
        (src : JsString.t) (v : Video.Element) (es : list Event) :
  direct P src ->
  let p := run P es (mount P src v) in
  error (videoEmit (ev_error true) p) = Some FILE_ERROR
  /\ errorOverlay (render (videoEmit (ev_error true) p))
     = Some (mkErrorOverlay FILE_ERROR [ReloadPage]).
Proof.
  intros Hd. cbv zeta.
  assert (Hin : In Video.on_error (listenersOf (run P es (mount P src v)))).
  { apply on_error_stays. rewrite mount_as_changeSrc.
    destruct (@listeners_changeSrc P src (initial v) v eq_refl)
      as (v' & more & A & B & C).
    unfold listenersOf. rewrite A, B, (C Hd). apply in_or_app. right.
    cbn. auto. }
  destruct (listener_mounted _ _ Hin) as [w Hw].
  unfold listenersOf in Hin. rewrite Hw in Hin.
  assert (E : error (videoEmit (ev_error true) (run P es (mount P src v)))
              = Some FILE_ERROR).
  { unfold videoEmit. rewrite Hw.
    apply error_fold with (v := reading (ev_error true) w).
    - reflexivity.
    - reflexivity.
    - left. exact Hin. }
  split; [exact E|]. unfold render. cbn [errorOverlay]. rewrite E.
  reflexivity.
Qed.

(** *** The statements above at the sample inputs *)

(** After a file and then a stream, the stream's client is the live one. *)
Lemma one_live_client_witness :
  liveClients (calls Scenarios.streamAfterFile) = [0].
Proof.
  assert (R : Reachable Examples.withHlsJs Scenarios.streamAfterFile)
    by (unfold Scenarios.streamAfterFile; apply reachable_run, reach_mount).
  destruct (one_live_client R) as (A & _).
  computed A.
Defined.



(** A live stream stays live through a later, finite time update. *)
Lemma live_flag_persists_witness :
  isLive (run Examples.neither Scenarios.goingOn Scenarios.foundLive) = true.
Proof.
  assert (L : isLive Scenarios.foundLive = true) by (vm_compute; reflexivity).
  assert (Hs : Forall sameSession Scenarios.goingOn) by (repeat constructor).
  exact (proj1 (@live_flag_persists Examples.neither Scenarios.goingOn
                  Scenarios.foundLive L Hs)).
Defined.


(** A media error during the stream that came after a file. *)
Lemma file_error_message_outlives_its_session_witness :
  error (videoEmit (ev_error true) Scenarios.streamAfterFile)
  = Some FILE_ERROR.
Proof.
  assert (Hd : direct Examples.withHlsJs Examples.fileUrl)
    by (vm_compute; reflexivity).
  exact (proj1 (@file_error_message_outlives_its_session Examples.withHlsJs
                  Examples.fileUrl Video.fresh Scenarios.fileThenStream Hd)).
Defined.

End SessionFacts.

(* ================================================================== *)
(** ** The controls bar *)
(* ================================================================== *)

Module WidgetFacts.
Import JsString Player Observe Widgets PlayerFacts.

(** *** The quality menu *)

Lemma indices_distinct (levels : list Hls.Level) :
  NoDup (List.map index
           (JsArray.sort byHeightDesc (JsArray.map toQualityLevel levels))).
Proof.
  apply Permutation_NoDup
    with (l := List.map Z.of_nat (List.seq 0 (List.length levels))).
  - rewrite <- mapFrom_index.
    apply Permutation_map, JsArrayFacts.sort_perm.
  - generalize (seq_NoDup (List.length levels) 0).
    generalize (List.seq 0 (List.length levels)).
    induction 1 as [|a l Ha _ IH]; cbn [List.map]; constructor; [|exact IH].
    intros H. apply in_map_iff in H as (b & E & Hb).
    apply Nat2Z.inj in E. subst b. contradiction.
Qed.

Lemma indices_not_negative (levels : list Hls.Level) (q : QualityLevel) :
  In q (JsArray.sort byHeightDesc (JsArray.map toQualityLevel levels)) ->
  (0 <= index q)%Z.
Proof.
  intros H. destruct (sorted_entry_origin _ _ H) as (k & level & _ & ->).
  cbn. lia.
Qed.

Lemma filter_by_index (l : list QualityLevel) (q : QualityLevel) :
  NoDup (List.map index l) -> In q l ->
  filter (fun x => (index q =? index x)%Z) l = [q].
Proof.
  induction l as [|x l IH]; intros N H; [contradiction|].
  cbn [List.map] in N. apply NoDup_cons_iff in N as [Nx N].
  cbn [filter]. destruct H as [-> | H].
  - rewrite Z.eqb_refl. f_equal.
    clear -Nx. induction l as [|y l IH]; [reflexivity|].
    cbn [filter]. destruct (Z.eqb_spec (index q) (index y)) as [E|E].
    + exfalso. apply Nx. left. auto.
    + apply IH. intros H. apply Nx. right. exact H.
  - destruct (Z.eqb_spec (index q) (index x)) as [E|E]; [|auto].
    exfalso. apply Nx. rewrite <- E. apply in_map. exact H.
Qed.

Lemma find_by_index (l : list QualityLevel) (q : QualityLevel) :
  NoDup (List.map index l) -> In q l ->
  find (fun x => (index x =? index q)%Z) l = Some q.
Proof.
  induction l as [|x l IH]; intros N H; [contradiction|].
  cbn [List.map] in N. apply NoDup_cons_iff in N as [Nx N].
  cbn [find]. destruct H as [-> | H].
  - rewrite Z.eqb_refl. reflexivity.
  - destruct (Z.eqb_spec (index x) (index q)) as [E|E]; [|auto].
    exfalso. apply Nx. rewrite E. apply in_map. exact H.
Qed.

Lemma filter_automatic (l : list QualityLevel) :
  (forall x, In x l -> (0 <= index x)%Z) ->
  filter (fun x => (-1 =? index x)%Z) l = [].
Proof.
  induction l as [|x l IH]; intros H; [reflexivity|].
  cbn [filter]. destruct (Z.eqb_spec (-1) (index x)) as [E|_].
  - specialize (H x (or_introl eq_refl)). lia.
  - apply IH. intros y Hy. apply H. right. exact Hy.
Qed.

Lemma highlighted_entries (idx : Z) (l : list QualityLevel) :
  filter highlighted
    (List.map (fun q => mkMenuEntry (name q) (Some (label q))
                          (idx =? index q)%Z (ChangeQuality (index q))) l)
  = List.map (fun q => mkMenuEntry (name q) (Some (label q)) true
                         (ChangeQuality (index q)))
      (filter (fun q => (idx =? index q)%Z) l).
Proof.
  induction l as [|x l IH]; [reflexivity|].
  cbn [List.map filter highlighted].
  destruct (idx =? index x)%Z eqn:E; cbn [List.map]; rewrite IH, ?E;
    reflexivity.
Qed.

Lemma changeQuality_qualities (i : Z) (p : t) :
  qualities (changeQuality i p) = qualities p.
Proof. handlers. cbn. destruct (hlsRef p); reflexivity. Qed.

Lemma changeQuality_selection (i : Z) (p : t) :
  currentQualityIndex (changeQuality i p) = i.
Proof. handlers. cbn. destruct (hlsRef p); reflexivity. Qed.

(** X7.  After the manifest is parsed, choosing any entry of the quality
    list makes the button show that entry's name and leaves that entry the
    only highlighted one in the menu; choosing the automatic entry makes
    the button show the automatic label with only that entry highlighted.
    This holds although names may repeat: entries are told apart by their
    index. *)
Theorem caption_follows_selection (p : t) (h : Hls.Instance)
        (data : Hls.ManifestParsedData) (q : QualityLevel) :
  hlsRef p = Some h ->
  Hls.delivers h (Hls.MANIFEST_PARSED data) = true ->
  let p' := hlsEmit (Hls.MANIFEST_PARSED data) p in
  In q (qualities p') ->
  currentQualityLabel (changeQuality (index q) p') = name q
  /\ filter highlighted (menuEntries (changeQuality (index q) p'))
     = [mkMenuEntry (name q) (Some (label q)) true (ChangeQuality (index q))]
  /\ currentQualityLabel (changeQuality (-1) p') = AUTO_LABEL
  /\ filter highlighted (menuEntries (changeQuality (-1) p'))
     = [mkMenuEntry AUTO_LABEL None true (ChangeQuality (-1))].
Proof.
  intros Hh Hd. cbv zeta.
  rewrite (@hlsEmit_delivered _ _ (Hls.MANIFEST_PARSED data) Hh Hd).
  destruct (onManifestParsed_cells data p) as (Q & _). cbv zeta in Q.
  intros Hin. rewrite Q in Hin.
  pose proof (indices_distinct (Hls.levels data)) as N.
  pose proof (indices_not_negative _ _ Hin) as Hpos.
  unfold currentQualityLabel, menuEntries.
  rewrite !changeQuality_qualities, !changeQuality_selection, Q.
  repeat split.
  - destruct (Z.eqb_spec (index q) (-1)) as [E|_]; [lia|].
    rewrite (find_by_index _ _ N Hin). reflexivity.
  - cbn [filter highlighted].
    destruct (Z.eqb_spec (index q) (-1)) as [E|_]; [lia|].
    rewrite highlighted_entries, (filter_by_index _ _ N Hin). reflexivity.
  - cbn [filter highlighted]. rewrite Z.eqb_refl. f_equal.
    rewrite highlighted_entries, filter_automatic; [reflexivity|].
    intros x. apply indices_not_negative.
Qed.


(** *** Addresses *)

Lemma toLowerCase_app (a b : JsString.t) :
  toLowerCase (a ++ b) = toLowerCase a ++ toLowerCase b.
Proof. apply flat_map_app. Qed.

(** X9.  The manifest test looks for the extension or the MIME type
    anywhere in the address and in any letter case, not only at its end:
    an address with a piece that lower-cases to ".m3u8" or to the HLS MIME
    type is taken for a manifest, and on a platform with hls.js it is
    loaded through a client. *)
Theorem manifest_hint_anywhere (P : Platform) (a s b : JsString.t) (p : t) :
  toLowerCase s = lit ".m3u8" \/ toLowerCase s = MPEGURL ->
  isHlsSource (a ++ s ++ b) = true
  /\ (isSupported P = true ->
      exists h, hlsRef (loadVideo P (a ++ s ++ b) p) = Some h
                /\ Hls.url h = Some (a ++ s ++ b)).
Proof.
  intros H.
  assert (Hs : isHlsSource (a ++ s ++ b) = true).
  { apply isHlsSource_iff. exists (toLowerCase a), (toLowerCase b).
    rewrite !toLowerCase_app. destruct H as [-> | ->]; auto. }
  split; [exact Hs|]. intros Hp.
  destruct (loadVideo_adaptive P (a ++ s ++ b) p Hs Hp) as (A & _).
  eexists. split; [exact A | reflexivity].
Qed.

(** *** Volume and mute *)

(** X10.  After the volume control is moved to [val] the control shows
    [val] again (zero when [val] is zero), and the crossed-out speaker is
    shown exactly when [val] is zero. *)
Theorem volume_control_shows_its_value (val : float) (p : t)
        (v : Video.Element) :
  videoRef p = Some v ->
  let p' := handleVolumeChange val p in
  sliderValue p' = (if (val =? 0)%float then 0%float else val)
  /\ mutedIcon p' = (val =? 0)%float.
Proof.
  intros Hv. cbv zeta.
  destruct (handleVolumeChange_mounted val p Hv) as (A & _ & C & _).
  cbv zeta in A, C. unfold sliderValue, mutedIcon. rewrite A, C.
  destruct (val =? 0)%float; auto.
Qed.

Lemma toggleMute_mounted (p : t) (v : Video.Element) :
  videoRef p = Some v ->
  toggleMute p
  = setIsMuted (negb (isMuted p))
      (setVideoRef (Some (Video.setMuted (negb (isMuted p)) v))
         (log (VideoSetMuted (negb (isMuted p))) p)).
Proof. intros Hv. handlers. refs. reflexivity. Qed.

(** X11.  The mute button writes the same value to the element and to the
    displayed flag, and leaves the volume alone: while muted the control
    shows zero, and a second click brings back every state cell, the
    volume shown included, with the element's [muted] attribute equal to
    the flag as it was at first. *)
Theorem mute_toggle_round_trip (p : t) (v : Video.Element) :
  videoRef p = Some v ->
  isMuted (toggleMute p) = negb (isMuted p)
  /\ videoRef (toggleMute p) = Some (Video.setMuted (negb (isMuted p)) v)
  /\ sliderValue (toggleMute p)
     = (if isMuted p then volume p else 0%float)
  /\ cells (toggleMute (toggleMute p)) = cells p
  /\ sliderValue (toggleMute (toggleMute p)) = sliderValue p
  /\ videoRef (toggleMute (toggleMute p))
     = Some (Video.setMuted (isMuted p) v).
Proof.
  intros Hv. rewrite (toggleMute_mounted p Hv).
  assert (Hv1 : videoRef
                  (setIsMuted (negb (isMuted p))
                     (setVideoRef
                        (Some (Video.setMuted (negb (isMuted p)) v))
                        (log (VideoSetMuted (negb (isMuted p))) p)))
                = Some (Video.setMuted (negb (isMuted p)) v)) by reflexivity.
  rewrite (toggleMute_mounted _ Hv1).
  unfold sliderValue, cells. cbn. rewrite negb_involutive.
  destruct (isMuted p); repeat split.
Qed.

(** X12.  The fallback for a rejected autoplay mutes the display only: it
    makes no call on the element and leaves its [muted] attribute as it
    was, while the speaker is shown crossed out and the control at zero.
    The next click on the mute button then clears the flag and writes
    [muted = false] to the element. *)
Theorem rejected_autoplay_mutes_display_only (s : PlaySite) (p : t)
        (v : Video.Element) :
  videoRef p = Some v ->
  let p1 := onPlayRejected s p in
  videoRef p1 = Some v
  /\ calls p1 = calls p
  /\ mutedIcon p1 = true
  /\ sliderValue p1 = 0%float
  /\ isMuted (toggleMute p1) = false
  /\ videoRef (toggleMute p1) = Some (Video.setMuted false v)
  /\ sliderValue (toggleMute p1) = volume p.
Proof.
  intros Hv. cbv zeta.
  assert (Hv1 : videoRef (onPlayRejected s p) = Some v)
    by (destruct s; exact Hv).
  rewrite (toggleMute_mounted _ Hv1).
  unfold sliderValue, mutedIcon. destruct s; cbn; repeat split; exact Hv.
Qed.

(** *** The play button *)

(** X13.  The play button only calls the element: [pause] when the
    displayed flag says playing, [play] otherwise; no state cell changes
    until the element answers with its own event, which then flips the
    flag and the icon.  Two clicks before the element answers repeat the
    same call. *)
Theorem play_button_follows_the_element (p : t) (v : Video.Element) :
  videoRef p = Some v ->
  let request := if isPlaying p then VideoPause else VideoPlay in
  let answer := if isPlaying p then ev_pause else ev_play in
  cells (togglePlay p) = cells p
  /\ calls (togglePlay p) = calls p ++ [request]
  /\ calls (togglePlay (togglePlay p)) = calls p ++ [request; request]
  /\ pauseIcon (videoEmit answer (togglePlay p)) = negb (isPlaying p).
Proof.
  intros Hv. cbv zeta.
  assert (T : togglePlay p
              = setVideoRef (Some v)
                  (log (if isPlaying p then VideoPause else VideoPlay) p))
    by (handlers; refs; destruct (isPlaying p); reflexivity).
  assert (Hv1 : videoRef (togglePlay p) = Some v) by (rewrite T; reflexivity).
  assert (I1 : isPlaying (togglePlay p) = isPlaying p)
    by (rewrite T; reflexivity).
  split; [rewrite T; reflexivity|]. split; [rewrite T; reflexivity|]. split.
  - assert (T2 : togglePlay (togglePlay p)
                 = setVideoRef (Some v)
                     (log (if isPlaying p then VideoPause else VideoPlay)
                        (togglePlay p)))
      by (generalize Hv1 I1; generalize (togglePlay p); intros q Hq Iq;
          handlers; refs; rewrite Iq; destruct (isPlaying p); reflexivity).
    rewrite T2, T. cbn. rewrite <- app_assoc. reflexivity.
  - unfold pauseIcon, videoEmit. rewrite Hv1.
    destruct (isPlaying p).
    + rewrite (@fold_skip ev_pause (Video.listeners v) _ (fun l => eq_refl)).
      reflexivity.
    + rewrite (@fold_skip ev_play (Video.listeners v) _ (fun l => eq_refl)).
      reflexivity.
Qed.

(** *** Badges *)

(** X14.  The colour of the badge in a menu entry is decided by the
    height of its rendition: purple from 1440 up (2K and 4K), red from
    1080, blue from 720, gray below. *)
Theorem badge_colour_by_height (level : Hls.Level) (k : nat) :
  badgeColor (toQualityLevel level k)
  = if (Hls.height level >=? 1440)%Z then lit "bg-purple-600"
    else if (Hls.height level >=? 1080)%Z then lit "bg-red-600"
    else if (Hls.height level >=? 720)%Z then lit "bg-blue-600"
    else lit "bg-gray-600".
Proof.
  unfold badgeColor, toQualityLevel, getResolutionLabel. cbn [label].
  repeat match goal with
         | |- context [(?a >=? ?b)%Z] =>
             destruct (Z.geb_spec a b); try lia
         end; vm_compute; reflexivity.
Qed.

(** *** The progress control *)


(** *** The statements above at the sample inputs *)


(** The tallest rendition of the sample manifest is chosen. *)
Lemma caption_follows_selection_witness :
  currentQualityLabel (changeQuality 3 Examples.parsed) = lit "2160p".
Proof.
  assert (Hh : hlsRef Examples.loading = Some Examples.client)
    by (vm_compute; reflexivity).
  assert (Hd : Hls.delivers Examples.client
                 (Hls.MANIFEST_PARSED Examples.ladder) = true)
    by (vm_compute; reflexivity).
  assert (Hin : In Examples.tallest
                  (qualities (hlsEmit (Hls.MANIFEST_PARSED Examples.ladder)
                                Examples.loading)))
    by (vm_compute; left; reflexivity).
  destruct (@caption_follows_selection Examples.loading Examples.client
              Examples.ladder Examples.tallest Hh Hd Hin) as (A & _).
  computed A.
Defined.


(** A file address whose query names a manifest in capitals. *)
Lemma manifest_hint_anywhere_witness :
  isHlsSource Scenarios.fileWithManifestQuery = true.
Proof.
  assert (H : toLowerCase (lit ".M3U8") = lit ".m3u8"
              \/ toLowerCase (lit ".M3U8") = MPEGURL)
    by (left; vm_compute; reflexivity).
  destruct (@manifest_hint_anywhere Examples.neither
              (lit "https://h/clip.mp4?from=list") (lit ".M3U8") []
              (initial Video.fresh) H) as (A & _).
  computed A.
Defined.

(** The control is moved to three quarters on the file session. *)
Lemma volume_control_shows_its_value_witness :
  mutedIcon (handleVolumeChange 0.75 Examples.onFile) = false.
Proof.
  assert (Hv : videoRef Examples.onFile = Some Scenarios.fileElement)
    by (vm_compute; reflexivity).
  destruct (@volume_control_shows_its_value 0.75 Examples.onFile
              Scenarios.fileElement Hv) as (_ & A).
  computed A.
Defined.

(** Muting and unmuting the file session. *)
Lemma mute_toggle_round_trip_witness :
  cells (toggleMute (toggleMute Examples.onFile)) = cells Examples.onFile.
Proof.
  assert (Hv : videoRef Examples.onFile = Some Scenarios.fileElement)
    by (vm_compute; reflexivity).
  exact (proj1 (proj2 (proj2 (proj2
    (@mute_toggle_round_trip Examples.onFile Scenarios.fileElement Hv))))).
Defined.

(** The autoplay of the file session is rejected. *)
Lemma rejected_autoplay_mutes_display_only_witness :
  videoRef (onPlayRejected inLoadedData Examples.onFile)
  = Some Scenarios.fileElement.
Proof.
  assert (Hv : videoRef Examples.onFile = Some Scenarios.fileElement)
    by (vm_compute; reflexivity).
  exact (proj1 (@rejected_autoplay_mutes_display_only inLoadedData
                  Examples.onFile Scenarios.fileElement Hv)).
Defined.

(** The play button on the file session, which is not playing. *)
Lemma play_button_follows_the_element_witness :
  cells (togglePlay Examples.onFile) = cells Examples.onFile.
Proof.
  assert (Hv : videoRef Examples.onFile = Some Scenarios.fileElement)
    by (vm_compute; reflexivity).
  exact (proj1 (@play_button_follows_the_element Examples.onFile
                  Scenarios.fileElement Hv)).
Defined.

End WidgetFacts.

(* ================================================================== *)
(** ** Auto-hiding controls *)
(* ================================================================== *)

Module ControlsFacts.
Import Controls.

Lemma steady_mounted : steady mounted.
Proof. unfold steady. cbn. repeat split; intros; discriminate. Qed.

Lemma steady_step (e : Event) (c : t) : steady c -> steady (step e c).
Proof.
  intros (A & B & C). destruct c as [playing shown timer]. cbn in A, B, C.
  destruct timer as [[b|]|]; [specialize (B b eq_refl); subst b| |];
    destruct e, playing; unfold steady; cbn;
    repeat split; intros; try discriminate; try congruence;
    intuition (try discriminate; try congruence).
Qed.

Lemma steady_run (es : list Event) (c : t) : steady c -> steady (run es c).
Proof.
  revert c. induction es as [|e es IH]; intros c S; [exact S|].
  cbn [run fold_left]. apply IH, steady_step, S.
Qed.

(** X15.  Whatever the pointer, the element and the timeouts do after the
    player is mounted: while the video is paused the controls are visible
    and no timeout that would hide them is pending; while it plays the
    controls are hidden or a timeout is pending; and a pointer movement
    shows them, after which the timeout, if nothing else happens first,
    hides them again when the video plays and leaves them when it does
    not. *)
Theorem controls_hide_only_while_playing (es : list Event) :
  let c := run es mounted in
  (isPlaying c = false -> showControls c = true)
  /\ (isPlaying c = false -> showControls (elapse c) = true)
  /\ (isPlaying c = true -> showControls c = false \/ pending c <> None)
  /\ showControls (handleMouseMove c) = true
  /\ showControls (elapse (handleMouseMove c)) = negb (isPlaying c).
Proof.
  cbv zeta. destruct (steady_run es steady_mounted) as (A & B & C).
  generalize dependent (run es mounted). intros c A B C.
  split; [intros H; apply A; exact H|]. split; [|split; [exact C|]].
  - intros H. destruct (A H) as [S N]. unfold elapse.
    destruct (pending c) as [[b|]|] eqn:E; cbn.
    + rewrite (B b eq_refl), H. exact S.
    + congruence.
    + exact S.
  - split; [reflexivity|]. unfold elapse, handleMouseMove. cbn.
    destruct (isPlaying c); reflexivity.
Qed.

(** The video is played and paused again: the controls are there. *)
Lemma controls_hide_only_while_playing_witness :
  showControls (run Scenarios.pausedAgain mounted) = true.
Proof.
  refine (proj1 (controls_hide_only_while_playing Scenarios.pausedAgain) _).
  vm_compute. reflexivity.
Defined.

End ControlsFacts.

(* ================================================================== *)
(** ** Runs of the page shell *)
(* ================================================================== *)

Module ShellRunFacts.
Import JsString Shell ShellRun.

Lemma dropWhile_keeps (p : N -> bool) (s : JsString.t) :
  (forall c r, s = c :: r -> p c = false) -> dropWhile p s = s.
Proof.
  destruct s as [|c r]; [reflexivity|]. intros H. cbn.
  rewrite (H c r eq_refl). reflexivity.
Qed.

(** Trimming twice is trimming once. *)
Lemma trim_idempotent (s : JsString.t) : trim (trim s) = trim s.
Proof.
  destruct (JsStringFacts.trim_ends s) as [Hhead Hlast].
  set (u := trim s) in *. unfold trim, trimEnd, trimStart.
  rewrite (@dropWhile_keeps isWhiteSpace u Hhead).
  rewrite dropWhile_keeps; [apply rev_involutive|].
  intros c r E. apply (Hlast c (rev r)).
  rewrite <- (rev_involutive u), E. reflexivity.
Qed.

Lemma tidy_step (e : Event) (st : State) : tidy st -> tidy (step e st).
Proof.
  intros [A B]. destruct e as [v|]; cbn [step]; [split; assumption|].
  unfold tidy, handleUrlSubmit.
  destruct (trim (urlInput st)) as [|c r] eqn:E; cbn [truthy];
    [split; assumption|].
  cbn [streamUrl]. split; [discriminate|].
  rewrite <- E. apply trim_idempotent.
Qed.

(** X16.  However the field is edited and the form submitted, the address
    handed to the player is never empty and never starts or ends with white
    space: it is the default address or the trimmed text of a
    submission. *)
Theorem player_address_is_tidy (es : list Event) :
  let st := run es init in
  playerSrc st <> []
  /\ trim (playerSrc st) = playerSrc st
  /\ (forall c r, playerSrc st = c :: r -> isWhiteSpace c = false)
  /\ (forall c r, playerSrc st = r ++ [c] -> isWhiteSpace c = false).
Proof.
  cbv zeta. unfold playerSrc.
  assert (T : tidy (run es init)).
  { assert (T0 : tidy init) by (split; [discriminate | vm_compute; reflexivity]).
    revert T0. generalize init.
    induction es as [|e es IH]; intros st T0; [exact T0|].
    cbn [run fold_left]. apply IH, tidy_step, T0. }
  destruct T as [A B]. split; [exact A|]. split; [exact B|].
  rewrite <- B. apply JsStringFacts.trim_ends.
Qed.

(** An address typed between blanks, then a blank field. *)
Lemma player_address_is_tidy_witness :
  trim (playerSrc (run Scenarios.typing init))
  = playerSrc (run Scenarios.typing init).
Proof.
  exact (proj1 (proj2 (player_address_is_tidy Scenarios.typing))).
Defined.

End ShellRunFacts.
